(** * Meeting transcriber: alignment of transcription with diarization

    A shallow embedding of [meeting_transcriber.py]: the aligner
    ([_align_transcription_with_speakers]), the overlap resolver
    ([_find_dominant_speaker]) and the three output writers
    ([_save_detailed_json], [_save_readable_transcript],
    [_save_csv_analysis]).

    Modelling conventions.
    - Times (Python floats, in seconds) are exact rationals [Q]; numeric
      equality is [Qeq].  Rounding, infinities and NaN are outside the model.
    - A Python [str] is a [string]: a sequence of code points below 256.
    - A Whisper segment is the dict the code receives: a [gmap] from keys to
      dynamically typed values.  Missing keys and ill-typed values raise, as
      in Python, and the raising paths are explicit in the [result] type.
    - [speaker_durations] is an insertion-ordered dict: an association list
      in insertion order, because [max] walks it in that order.
    - The diarization object is the sequence [itertracks] yields.
    - The dict appended for a segment has the six keys of its literal: a
      record, with [items] giving the keys in insertion order.
    - The transcript file is the sequence of its [write] calls; the JSON
      file is its text, with the printing and reading of floats left as
      parameters; the CSV file is the table [to_csv] writes (header and
      rows of cells).

    The first part holds the program and the notions the statements use;
    the second part holds the theorems. *)

From Stdlib Require Import ZArith QArith Qminmax Qround Lqa Lia.
From Stdlib Require Import Ascii String List DecimalString.
From stdpp Require Import base option list strings gmap.

Open Scope string_scope.
Open Scope list_scope.

(** ** Dynamically typed values and exceptions *)

Module Py.

(** The values a segment dict holds: numbers and strings. *)
Inductive value : Type :=
| VNum (q : Q)
| VStr (s : string).

(** The exceptions the modelled code can raise. *)
Inductive exn : Type :=
| KeyError (key : string)
| AttributeError (attr : string)
| TypeError
| ValueError.

Inductive result (A : Type) : Type :=
| Ok (a : A)
| Raise (e : exn).
Arguments Ok {A} a.
Arguments Raise {A} e.

#[global] Instance result_ret : MRet result := @Ok.

#[global] Instance result_bind : MBind result := fun A B k r =>
  match r with
  | Ok a => k a
  | Raise e => Raise e
  end.

(** A number operand, or [TypeError]. *)
Definition number (v : value) : result Q :=
  match v with
  | VNum q => Ok q
  | VStr _ => Raise TypeError
  end.

(** [a - b]: defined on two numbers, [TypeError] otherwise. *)
Definition sub (a b : value) : result Q :=
  x ← number a; y ← number b; Ok (x - y)%Q.

(** [a < b] on floats. *)
Definition ltb (a b : Q) : bool :=
  match Qcompare a b with Lt => true | _ => false end.

(** [max(a, b)]: the first argument unless the second is strictly larger. *)
Definition max (a b : Q) : Q := if ltb a b then b else a.

(** [min(a, b)]: the first argument unless the second is strictly smaller. *)
Definition min (a b : Q) : Q := if ltb b a then b else a.

(** [d[key]]. *)
Definition getitem (d : gmap string value) (key : string) : result value :=
  match d !! key with
  | Some v => Ok v
  | None => Raise (KeyError key)
  end.

(** [d.get(key, default)]. *)
Definition get (d : gmap string value) (key : string) (default : value) : value :=
  match d !! key with
  | Some v => v
  | None => default
  end.

(** [c.isspace()] for a code point below 256: TAB..CR, FS..US, space,
    NEL and the no-break space. *)
Definition isspace (c : ascii) : bool :=
  let n := N_of_ascii c in
  ((9 <=? n) && (n <=? 13) || (28 <=? n) && (n <=? 32)
   || (n =? 133) || (n =? 160))%N.

(** [s.lstrip()]. *)
Fixpoint lstrip (s : string) : string :=
  match s with
  | EmptyString => EmptyString
  | String c s' => if isspace c then lstrip s' else s
  end.

(** [s.rstrip()]. *)
Fixpoint rstrip (s : string) : string :=
  match s with
  | EmptyString => EmptyString
  | String c s' =>
      match rstrip s' with
      | EmptyString => if isspace c then EmptyString else String c EmptyString
      | r => String c r
      end
  end.

(** [v.strip()]: a method of [str]; a number has no such attribute. *)
Definition strip (v : value) : result string :=
  match v with
  | VStr s => Ok (rstrip (lstrip s))
  | VNum _ => Raise (AttributeError "strip")
  end.

(** [int(x)] of a float: truncation towards zero. *)
Definition int (x : Q) : Z := Z.quot (Qnum x) (Z.pos (Qden x)).

(** ["%d" % n]. *)
Definition str_int (n : Z) : string := NilZero.string_of_int (Z.to_int n).

(** ["%02d" % n], for [0 <= n < 100]. *)
Definition two_digits (n : Z) : string :=
  if (n <? 10)%Z then "0" +:+ str_int n else str_int n.

(** [str(timedelta(seconds=n))] for an integer [n].  The constructor
    normalises to [days] and [0 <= seconds < 86400] by floor division;
    [__str__] prints [H:MM:SS], after ["D day, "] or ["D days, "] when
    [days] is not zero.  (timedelta's own bound on the number of days,
    10^9, is not part of the model.) *)
Definition timedelta_str (n : Z) : string :=
  let days := (n / 86400)%Z in
  let seconds := (n mod 86400)%Z in
  let mm := (seconds / 60)%Z in
  let ss := (seconds mod 60)%Z in
  let hh := (mm / 60)%Z in
  let mm := (mm mod 60)%Z in
  let s := str_int hh +:+ ":" +:+ two_digits mm +:+ ":" +:+ two_digits ss in
  if (days =? 0)%Z then s
  else str_int days +:+ " day" +:+ (if (Z.abs days =? 1)%Z then EmptyString else "s")
       +:+ ", " +:+ s.

(** The newline character. *)
Definition nl : string := String "010"%char EmptyString.

(** [s * n]. *)
Fixpoint repeat_str (s : string) (n : nat) : string :=
  match n with
  | O => EmptyString
  | S n' => s +:+ repeat_str s n'
  end.

(** [speaker != current_speaker], where [current_speaker] starts as
    [None]. *)
Definition ne_opt (speaker : string) (current_speaker : option string) : bool :=
  match current_speaker with
  | None => true
  | Some c => negb (String.eqb speaker c)
  end.

End Py.

(** ** Diarization turns *)

(** One item of [diarization.itertracks(yield_label=True)]: the turn's
    segment and its speaker label (the track name is ignored by the code). *)
Record Turn : Type := mkTurn {
  turn_start : Q;
  turn_end : Q;
  turn_speaker : string
}.

(** ** The overlap resolver *)

(** [if speaker not in speaker_durations: speaker_durations[speaker] = 0]
    followed by [speaker_durations[speaker] += overlap_duration], on the
    insertion-ordered dict. *)
Fixpoint dict_add (d : list (string * Q)) (speaker : string) (dur : Q)
  : list (string * Q) :=
  match d with
  | [] => [(speaker, 0 + dur)%Q]
  | (k, v) :: d' =>
      if String.eqb k speaker then (k, (v + dur)%Q) :: d'
      else (k, v) :: dict_add d' speaker dur
  end.

(** [speaker_durations.get(key)]; [None] is Python's [None]. *)
Fixpoint dict_get (d : list (string * Q)) (key : string) : option Q :=
  match d with
  | [] => None
  | (k, v) :: d' => if String.eqb k key then Some v else dict_get d' key
  end.

(** The body of the [for turn, _, speaker in ...] loop. *)
Definition accumulate_turn (start_time end_time : Q)
    (speaker_durations : list (string * Q)) (t : Turn) : list (string * Q) :=
  let overlap_start := Py.max start_time (turn_start t) in
  let overlap_end := Py.min end_time (turn_end t) in
  if Py.ltb overlap_start overlap_end then
    let overlap_duration := (overlap_end - overlap_start)%Q in
    dict_add speaker_durations (turn_speaker t) overlap_duration
  else speaker_durations.

(** The whole loop, from the empty dict. *)
Definition accumulate (start_time end_time : Q) (diarization : list Turn)
  : list (string * Q) :=
  fold_left (accumulate_turn start_time end_time) diarization [].

(** [max(d, key=d.get)] on a non-empty dict: the keys are walked in
    insertion order and the running maximum is replaced only by a strictly
    larger value.  For a key [k] of [d], [d.get(k)] is the value stored
    with [k], so the walk is over the items. *)
Fixpoint max_walk (max_item : string) (max_val : Q) (rest : list (string * Q))
  : string :=
  match rest with
  | [] => max_item
  | (item, val) :: rest' =>
      if Py.ltb max_val val then max_walk item val rest'
      else max_walk max_item max_val rest'
  end.

Definition max_by_value (first : string * Q) (rest : list (string * Q)) : string :=
  max_walk (fst first) (snd first) rest.

(** [s.split(sep)] for a one-character separator. *)
Fixpoint split (sep : ascii) (s : string) : list string :=
  match s with
  | EmptyString => [EmptyString]
  | String c s' =>
      if Ascii.eqb c sep then EmptyString :: split sep s'
      else match split sep s' with
           | tok :: toks => String c tok :: toks
           | [] => [String c EmptyString]
           end
  end.

(** [f"Speaker_{raw.split('_')[-1]}"]. *)
Definition normalize_label (raw : string) : string :=
  "Speaker_" +:+ List.last (split "_" raw) EmptyString.

(** [_find_dominant_speaker] once both times are known to be numbers. *)
Definition dominant_label (start_time end_time : Q) (diarization : list Turn)
  : string :=
  match accumulate start_time end_time diarization with
  | [] => "Unknown"
  | first :: rest => normalize_label (max_by_value first rest)
  end.

(** [_find_dominant_speaker].  Its first statement,
    [segment_duration = end_time - start_time], raises [TypeError] unless
    both times are numbers. *)
Definition find_dominant_speaker (start_time end_time : Py.value)
    (diarization : list Turn) : Py.result string :=
  segment_duration ← Py.sub end_time start_time;
  s ← Py.number start_time;
  e ← Py.number end_time;
  Py.Ok (dominant_label s e diarization).

(** ** The aligner *)

(** The dict [_align_transcription_with_speakers] appends for a segment.
    Its keys are fixed by the dict literal; [start], [end] and [duration]
    are numbers once [_find_dominant_speaker] has returned. *)
Record AlignedUtterance : Type := mkUtterance {
  au_start : Q;
  au_end : Q;
  au_duration : Q;
  au_speaker : string;
  au_text : string;
  au_confidence : Py.value
}.

(** The body of the [for segment in whisper_segments] loop. *)
Definition align_segment (segment : gmap string Py.value)
    (diarization : list Turn) : Py.result AlignedUtterance :=
  start_time ← Py.getitem segment "start";
  end_time ← Py.getitem segment "end";
  text ← Py.getitem segment "text" ≫= Py.strip;
  speaker ← find_dominant_speaker start_time end_time diarization;
  s ← Py.number start_time;
  e ← Py.number end_time;
  duration ← Py.sub end_time start_time;
  Py.Ok {| au_start := s;
           au_end := e;
           au_duration := duration;
           au_speaker := speaker;
           au_text := text;
           au_confidence := Py.get segment "avg_logprob" (Py.VNum 0) |}.

(** [_align_transcription_with_speakers]: the first segment that raises
    aborts the loop. *)
Fixpoint align_transcription_with_speakers
    (whisper_segments : list (gmap string Py.value)) (diarization : list Turn)
  : Py.result (list AlignedUtterance) :=
  match whisper_segments with
  | [] => Py.Ok []
  | segment :: rest =>
      u ← align_segment segment diarization;
      us ← align_transcription_with_speakers rest diarization;
      Py.Ok (u :: us)
  end.

(** ** The readable transcript *)

(** The file is modelled by the sequence of [f.write] calls, each tagged
    with the statement that made it; the text of the file is the
    concatenation of the rendered writes. *)
Inductive write : Type :=
| Banner (s : string)
| Header (timestamp speaker : string)
| Line (text : string).

Definition render (w : write) : string :=
  match w with
  | Banner s => s
  | Header timestamp speaker =>
      Py.nl +:+ "[" +:+ timestamp +:+ "] " +:+ speaker +:+ ":" +:+ Py.nl
  | Line text => text +:+ Py.nl
  end.

Definition file_text (ws : list write) : string :=
  fold_right String.append EmptyString (map render ws).

(** [str(timedelta(seconds=int(segment["start"])))]. *)
Definition timestamp_of (x : Q) : string := Py.timedelta_str (Py.int x).

(** The [for segment in segments] loop of [_save_readable_transcript]. *)
Fixpoint transcript_loop (current_speaker : option string)
    (segments : list AlignedUtterance) : list write :=
  match segments with
  | [] => []
  | segment :: rest =>
      let speaker := au_speaker segment in
      let text := au_text segment in
      let timestamp := timestamp_of (au_start segment) in
      if Py.ne_opt speaker current_speaker then
        Header timestamp speaker :: Line text
          :: transcript_loop (Some speaker) rest
      else
        Line text :: transcript_loop current_speaker rest
  end.

(** [_save_readable_transcript]. *)
Definition save_readable_transcript (segments : list AlignedUtterance)
  : list write :=
  Banner ("MEETING TRANSCRIPT" +:+ Py.nl)
    :: Banner (Py.repeat_str "=" 50 +:+ Py.nl +:+ Py.nl)
    :: transcript_loop None segments.

(** The headers among the writes, in order. *)
Definition headers (ws : list write) : list (string * string) :=
  omap (fun w => match w with
                 | Header timestamp speaker => Some (timestamp, speaker)
                 | _ => None
                 end) ws.

(** Specification side: the maximal runs of consecutive utterances with
    the same speaker label. *)
Fixpoint group_runs (us : list AlignedUtterance) : list (list AlignedUtterance) :=
  match us with
  | [] => []
  | u :: rest =>
      match group_runs rest with
      | (v :: run) :: runs =>
          if String.eqb (au_speaker u) (au_speaker v)
          then (u :: v :: run) :: runs
          else [u] :: (v :: run) :: runs
      | _ => [[u]]
      end
  end.




(** ** The aligned dict as key/value items *)

(** The keys of the dict literal in [_align_transcription_with_speakers],
    in insertion order, each with the value it holds. *)
Definition fields : list (string * (AlignedUtterance -> Py.value)) :=
  [ ("start", fun u => Py.VNum (au_start u));
    ("end", fun u => Py.VNum (au_end u));
    ("duration", fun u => Py.VNum (au_duration u));
    ("speaker", fun u => Py.VStr (au_speaker u));
    ("text", fun u => Py.VStr (au_text u));
    ("confidence", au_confidence) ].

(** [segment.items()]. *)
Definition items (u : AlignedUtterance) : list (string * Py.value) :=
  map (fun kf => (fst kf, snd kf u)) fields.

(** ** The tabular record *)

(** A pandas DataFrame: the row labels and the columns, in order. *)
Record DataFrame : Type := mkDataFrame {
  df_index : list nat;
  df_columns : list (string * list Py.value)
}.

(** [pd.DataFrame(segments)] on a list of dicts: rows are labelled
    [0 .. n-1] and the columns are the keys of the dicts in order of
    appearance.  All dicts here come from the same literal; with no dict
    there is no key, hence no column. *)
Definition DataFrame_of_records (segments : list AlignedUtterance) : DataFrame :=
  {| df_index := seq 0 (length segments);
     df_columns :=
       match segments with
       | [] => []
       | _ :: _ => map (fun kf => (fst kf, map (snd kf) segments)) fields
       end |}.

(** [df[key]]. *)
Fixpoint column_get (columns : list (string * list Py.value)) (key : string)
  : Py.result (list Py.value) :=
  match columns with
  | [] => Py.Raise (Py.KeyError key)
  | (k, col) :: columns' =>
      if String.eqb k key then Py.Ok col else column_get columns' key
  end.

(** [df[key] = col]: replaces the column [key], or appends it. *)
Fixpoint column_set (columns : list (string * list Py.value)) (key : string)
    (col : list Py.value) : list (string * list Py.value) :=
  match columns with
  | [] => [(key, col)]
  | (k, c) :: columns' =>
      if String.eqb k key then (k, col) :: columns'
      else (k, c) :: column_set columns' key col
  end.

Definition df_getitem (df : DataFrame) (key : string) : Py.result (list Py.value) :=
  column_get (df_columns df) key.

Definition df_setitem (df : DataFrame) (key : string) (col : list Py.value)
  : DataFrame :=
  {| df_index := df_index df; df_columns := column_set (df_columns df) key col |}.

(** [series.apply(f)]. *)
Fixpoint series_apply (f : Py.value -> Py.result Py.value) (col : list Py.value)
  : Py.result (list Py.value) :=
  match col with
  | [] => Py.Ok []
  | x :: col' => y ← f x; ys ← series_apply f col'; Py.Ok (y :: ys)
  end.

(** [lambda x: str(timedelta(seconds=int(x)))].  The columns it is applied
    to hold numbers; [int] of a string that is not an integer literal is a
    [ValueError], and integer literals in strings are not modelled. *)
Definition format_seconds (x : Py.value) : Py.result Py.value :=
  match x with
  | Py.VNum q => Py.Ok (Py.VStr (timestamp_of q))
  | Py.VStr _ => Py.Raise Py.ValueError
  end.

(** What [to_csv] writes: a header row and one row of cells per row label.
    With [index=True] the row label leads each row, under an empty header
    name.  The quoting of cells in the text file is outside the model. *)
Record Csv : Type := mkCsv {
  csv_header : list string;
  csv_rows : list (list Py.value)
}.

Definition to_csv (df : DataFrame) (index : bool) : Csv :=
  {| csv_header :=
       (if index then [EmptyString] else []) ++ map fst (df_columns df);
     csv_rows :=
       map (fun i =>
              (if index then [Py.VNum (inject_Z (Z.of_nat i))] else [])
              ++ map (fun c => default (Py.VStr EmptyString) (snd c !! i))
                     (df_columns df))
           (df_index df) |}.

(** [_save_csv_analysis]. *)
Definition save_csv_analysis (segments : list AlignedUtterance) : Py.result Csv :=
  let df := DataFrame_of_records segments in
  start ← df_getitem df "start";
  start_formatted ← series_apply format_seconds start;
  let df := df_setitem df "start_formatted" start_formatted in
  end_ ← df_getitem df "end";
  end_formatted ← series_apply format_seconds end_;
  let df := df_setitem df "end_formatted" end_formatted in
  Py.Ok (to_csv df false).

(** The cells of the row the specification asks for: the six fields, then
    the two formatted times. *)
Definition csv_row (u : AlignedUtterance) : list Py.value :=
  map snd (items u)
  ++ [Py.VStr (timestamp_of (au_start u)); Py.VStr (timestamp_of (au_end u))].

(** ** The structured record *)

Module Json.

Definition quote : ascii := "034"%char.
Definition backslash : ascii := "092"%char.

Definition hex_digit (n : N) : ascii :=
  (if n <? 10 then ascii_of_N (48 + n) else ascii_of_N (87 + n))%N.

(** The replacement of one character in [encode_basestring]: the
    two-character escapes of [ESCAPE_DCT], [\u00XX] for the other control
    characters, and the character itself otherwise ([ensure_ascii=False]). *)
Definition escape_char (c : ascii) : string :=
  let n := N_of_ascii c in
  (if n =? 34 then String backslash (String quote EmptyString)
   else if n =? 92 then String backslash (String backslash EmptyString)
   else if n =? 10 then String backslash "n"
   else if n =? 13 then String backslash "r"
   else if n =? 9 then String backslash "t"
   else if n =? 8 then String backslash "b"
   else if n =? 12 then String backslash "f"
   else if n <? 32 then
     String backslash
       ("u00" +:+ String (hex_digit (n / 16)) (String (hex_digit (n mod 16)) EmptyString))
   else String c EmptyString)%N.

Fixpoint escape (s : string) : string :=
  match s with
  | EmptyString => EmptyString
  | String c s' => escape_char c +:+ escape s'
  end.

(** [encode_basestring(s)]. *)
Definition encode_string (s : string) : string :=
  String quote (escape s +:+ String quote EmptyString).

(** [sep.join(l)]. *)
Fixpoint join (sep : string) (l : list string) : string :=
  match l with
  | [] => EmptyString
  | [x] => x
  | x :: l' => x +:+ sep +:+ join sep l'
  end.

(** ['\n' + indent * level], with [indent=2]. *)
Definition newline_indent (level : nat) : string :=
  Py.nl +:+ Py.repeat_str "  " level.

Section Encoder.

(** [float.__repr__], the number printer of the encoder. *)
Variable float_repr : Q -> string.

Definition encode_value (v : Py.value) : string :=
  match v with
  | Py.VNum q => float_repr q
  | Py.VStr s => encode_string s
  end.

Definition encode_member (kv : string * Py.value) : string :=
  encode_string (fst kv) +:+ ": " +:+ encode_value (snd kv).

(** [_iterencode_dict] at nesting depth [level]. *)
Definition encode_dict (level : nat) (d : list (string * Py.value)) : string :=
  match d with
  | [] => "{}"
  | _ :: _ =>
      "{" +:+ newline_indent (S level)
      +:+ join ("," +:+ newline_indent (S level)) (map encode_member d)
      +:+ newline_indent level +:+ "}"
  end.

(** [_iterencode_list] at nesting depth [level]. *)
Definition encode_list (level : nat) (l : list (list (string * Py.value)))
  : string :=
  match l with
  | [] => "[]"
  | _ :: _ =>
      "[" +:+ newline_indent (S level)
      +:+ join ("," +:+ newline_indent (S level)) (map (encode_dict (S level)) l)
      +:+ newline_indent level +:+ "]"
  end.

(** [json.dump(segments, f, indent=2, ensure_ascii=False)]: the text
    written to the file. *)
Definition dump (segments : list (list (string * Py.value))) : string :=
  encode_list 0 segments.

End Encoder.

(** *** Reading the record back

    [json.load] on documents of the shape the encoder writes: an array of
    objects whose values are numbers and strings. *)

Definition is_ws (c : ascii) : bool :=
  let n := N_of_ascii c in ((n =? 32) || (n =? 9) || (n =? 10) || (n =? 13))%N.

Fixpoint skip_ws (s : string) : string :=
  match s with
  | EmptyString => EmptyString
  | String c s' => if is_ws c then skip_ws s' else s
  end.

Definition expect (c : ascii) (s : string) : option string :=
  match s with
  | String c' s' => if Ascii.eqb c' c then Some s' else None
  | EmptyString => None
  end.

Definition hex_value (c : ascii) : option N :=
  let n := N_of_ascii c in
  (if (48 <=? n) && (n <=? 57) then Some (n - 48)
   else if (97 <=? n) && (n <=? 102) then Some (n - 87)
   else if (65 <=? n) && (n <=? 70) then Some (n - 55)
   else None)%N.

(** The character a [\uXXXX] escape denotes, when it is below 256. *)
Definition unescape_hex (h1 h2 h3 h4 : ascii) : option ascii :=
  a ← hex_value h1; b ← hex_value h2; c ← hex_value h3; d ← hex_value h4;
  let n := (((a * 16 + b) * 16 + c) * 16 + d)%N in
  if (n <? 256)%N then Some (ascii_of_N n) else None.

(** The character a two-character escape denotes ([BACKSLASH]). *)
Definition unescape (e : ascii) : option ascii :=
  let n := N_of_ascii e in
  (if n =? 34 then Some quote
   else if n =? 92 then Some backslash
   else if n =? 47 then Some "/"%char
   else if n =? 98 then Some "008"%char
   else if n =? 102 then Some "012"%char
   else if n =? 110 then Some "010"%char
   else if n =? 114 then Some "013"%char
   else if n =? 116 then Some "009"%char
   else None)%N.

(** [scanstring], after the opening quote: the decoded characters up to
    the closing quote, and what follows it. *)
Fixpoint parse_chars (s : string) : option (string * string) :=
  match s with
  | EmptyString => None
  | String c s' =>
      if Ascii.eqb c quote then Some (EmptyString, s')
      else if Ascii.eqb c backslash then
        match s' with
        | EmptyString => None
        | String e s'' =>
            if Ascii.eqb e "u" then
              match s'' with
              | String h1 (String h2 (String h3 (String h4 s3))) =>
                  ch ← unescape_hex h1 h2 h3 h4;
                  '(t, r) ← parse_chars s3;
                  Some (String ch t, r)
              | _ => None
              end
            else
              ch ← unescape e;
              '(t, r) ← parse_chars s'';
              Some (String ch t, r)
        end
      else if (N_of_ascii c <? 32)%N then None
      else '(t, r) ← parse_chars s'; Some (String c t, r)
  end.

Definition is_number_char (c : ascii) : bool :=
  let n := N_of_ascii c in
  ((48 <=? n) && (n <=? 57) || (n =? 45) || (n =? 43) || (n =? 46)
   || (n =? 101) || (n =? 69))%N.

(** The longest prefix made of number characters, and the rest. *)
Fixpoint span_number (s : string) : string * string :=
  match s with
  | EmptyString => (EmptyString, EmptyString)
  | String c s' =>
      if is_number_char c then
        let '(tok, r) := span_number s' in (String c tok, r)
      else (EmptyString, s)
  end.

Section Decoder.

(** [float(token)], the number reader of the decoder. *)
Variable float_parse : string -> option Q.

Definition parse_value (s : string) : option (Py.value * string) :=
  match s with
  | EmptyString => None
  | String c s' =>
      if Ascii.eqb c quote then
        '(t, r) ← parse_chars s'; Some (Py.VStr t, r)
      else
        let '(tok, r) := span_number s in
        match tok with
        | EmptyString => None
        | _ => q ← float_parse tok; Some (Py.VNum q, r)
        end
  end.

Definition parse_member (s : string) : option ((string * Py.value) * string) :=
  s1 ← expect quote (skip_ws s);
  '(key, s2) ← parse_chars s1;
  s3 ← expect ":" (skip_ws s2);
  '(v, s4) ← parse_value (skip_ws s3);
  Some ((key, v), s4).

Fixpoint parse_members (fuel : nat) (s : string)
  : option (list (string * Py.value) * string) :=
  match fuel with
  | O => None
  | S fuel' =>
      '(m, s1) ← parse_member s;
      match skip_ws s1 with
      | String c s2 =>
          if Ascii.eqb c "," then
            '(ms, s3) ← parse_members fuel' s2; Some (m :: ms, s3)
          else if Ascii.eqb c "}" then Some ([m], s2)
          else None
      | EmptyString => None
      end
  end.

Definition parse_object (fuel : nat) (s : string)
  : option (list (string * Py.value) * string) :=
  s1 ← expect "{" (skip_ws s);
  match expect "}" (skip_ws s1) with
  | Some s2 => Some ([], s2)
  | None => parse_members fuel s1
  end.

(** The loop over the array elements; [member_fuel] bounds the loop over
    the members of each object. *)
Fixpoint parse_objects (member_fuel fuel : nat) (s : string)
  : option (list (list (string * Py.value)) * string) :=
  match fuel with
  | O => None
  | S fuel' =>
      '(o, s1) ← parse_object member_fuel s;
      match skip_ws s1 with
      | String c s2 =>
          if Ascii.eqb c "," then
            '(os, s3) ← parse_objects member_fuel fuel' s2; Some (o :: os, s3)
          else if Ascii.eqb c "]" then Some ([o], s2)
          else None
      | EmptyString => None
      end
  end.

Definition parse_array (fuel : nat) (s : string)
  : option (list (list (string * Py.value)) * string) :=
  s1 ← expect "[" (skip_ws s);
  match expect "]" (skip_ws s1) with
  | Some s2 => Some ([], s2)
  | None => parse_objects fuel fuel s1
  end.

(** [json.loads(text)]: one array, then nothing but whitespace.  No loop
    runs more often than the text has characters. *)
Definition loads (text : string) : option (list (list (string * Py.value))) :=
  '(l, rest) ← parse_array (String.length text) text;
  match skip_ws rest with
  | EmptyString => Some l
  | _ => None
  end.

End Decoder.

(** A token made of number characters only. *)
Fixpoint all_number_chars (s : string) : bool :=
  match s with
  | EmptyString => true
  | String c s' => is_number_char c && all_number_chars s'
  end.

Definition starts_number (s : string) : bool :=
  match s with
  | EmptyString => false
  | String c _ => is_number_char c
  end.

(** A value whose printed form reads back as the same value: any string,
    and a number that [float_repr] prints as a non-empty number token
    which [float_parse] reads as that number. *)
Definition reads_back (float_repr : Q -> string)
    (float_parse : string -> option Q) (v : Py.value) : Prop :=
  match v with
  | Py.VStr _ => True
  | Py.VNum q =>
      float_repr q <> EmptyString /\
      all_number_chars (float_repr q) = true /\
      float_parse (float_repr q) = Some q
  end.

End Json.

(** [_save_detailed_json]: the text of the file. *)
Definition save_detailed_json (float_repr : Q -> string)
    (segments : list AlignedUtterance) : string :=
  Json.dump float_repr (map items segments).

(** A number printer and reader for the examples: integers in decimal. *)
Definition int_repr (q : Q) : string := Py.str_int (Qnum q).

Definition int_parse (s : string) : option Q :=
  (fun d => inject_Z (Z.of_int d)) <$> NilZero.int_of_string s.

(** Sample utterances: three speaker runs; one text has a quote, a
    backslash and a line break in it. *)
Definition spoken : list AlignedUtterance :=
  [ mkUtterance 0 3 3 "Speaker_00" "hello" (Py.VNum 0);
    mkUtterance 3 6 3 "Speaker_00" "world" (Py.VNum (-1));
    mkUtterance 3661 3700 39 "Speaker_01"
      ("a " +:+ String Json.quote ("b\c" +:+ Py.nl +:+ "d")) (Py.VNum (-2));
    mkUtterance 90061 90062 1 "Speaker_00" "late" (Py.VNum 0) ].

(** A segment dict that carries a TranscribedSpan: numeric [start] and
    [end], and a [text] string ([avg_logprob] is optional). *)
Definition well_formed (segment : gmap string Py.value) : Prop :=
  exists s e t,
    segment !! "start" = Some (Py.VNum s) /\
    segment !! "end" = Some (Py.VNum e) /\
    segment !! "text" = Some (Py.VStr t).

(** Sample inputs: two consecutive spans under one turn, and a span that
    ends before it starts. *)
Definition hello_world : list (gmap string Py.value) :=
  [ {[ "start" := Py.VNum 0; "end" := Py.VNum 3; "text" := Py.VStr " hello " ]};
    {[ "start" := Py.VNum 3; "end" := Py.VNum 6; "text" := Py.VStr "world";
       "avg_logprob" := Py.VNum (-1 # 4) ]} ].

Definition one_turn : list Turn := [mkTurn 0 6 "SPEAKER_00"].

Definition backwards_span : gmap string Py.value :=
  {[ "start" := Py.VNum 5; "end" := Py.VNum 3; "text" := Py.VStr "oops" ]}.

(** ** Specification-side notions for the overlap resolver *)

(** The overlap of a span with a turn, as the specification writes it:
    [max(0, min(span_end, turn.end) - max(span_start, turn.start))]. *)
Definition overlap (span_start span_end : Q) (t : Turn) : Q :=
  Qmax 0 (Qmin span_end (turn_end t) - Qmax span_start (turn_start t)).

Definition Qsum (l : list Q) : Q := fold_right Qplus 0%Q l.

(** The turns of one speaker, in iteration order. *)
Definition turns_of (speaker : string) (turns : list Turn) : list Turn :=
  filter (fun t => turn_speaker t = speaker) turns.

(** The sum of the overlaps of all turns of [speaker] with the span. *)
Definition total_overlap (span_start span_end : Q) (turns : list Turn)
    (speaker : string) : Q :=
  Qsum (map (overlap span_start span_end) (turns_of speaker turns)).

(** Position, in iteration order, of the first turn of [speaker] whose
    overlap with the span is strictly positive. *)
Fixpoint first_positive (span_start span_end : Q) (turns : list Turn)
    (speaker : string) : option nat :=
  match turns with
  | [] => None
  | t :: ts =>
      if decide (turn_speaker t = speaker) then
        if Py.ltb 0 (overlap span_start span_end t) then Some O
        else S <$> first_positive span_start span_end ts speaker
      else S <$> first_positive span_start span_end ts speaker
  end.

(** [c in s]. *)
Fixpoint occurs (c : ascii) (s : string) : bool :=
  match s with
  | EmptyString => false
  | String c' s' => Ascii.eqb c' c || occurs c s'
  end.






(** What the dict holds after a prefix of the turns has been walked. *)
Record acc_inv (s e : Q) (turns : list Turn) (d : list (string * Q)) : Prop := {
  inv_nodup : NoDup (map fst d);
  inv_total : forall k, (default 0 (dict_get d k) == total_overlap s e turns k)%Q;
  inv_pos : forall k v, dict_get d k = Some v -> (0 < v)%Q;
  inv_keys : forall k,
    is_Some (dict_get d k) <-> is_Some (first_positive s e turns k);
  inv_order : forall i j k1 k2,
    map fst d !! i = Some k1 -> map fst d !! j = Some k2 -> (i < j)%nat ->
    exists a b, first_positive s e turns k1 = Some a /\
                first_positive s e turns k2 = Some b /\ (a < b)%nat
}.

From Stdlib Require Import Sorted.

(** ** Further notions used by the statements on the overlap resolver *)

(** [overlap > 0], as a test. *)
Definition overlaps (span_start span_end : Q) (t : Turn) : bool :=
  Py.ltb 0 (overlap span_start span_end t).

(** ** Further notions used by the statements on the writers *)

(** The utterance texts among the writes, in order. *)
Definition lines (ws : list write) : list string :=
  omap (fun w => match w with
                 | Line text => Some text
                 | _ => None
                 end) ws.

(** The value of [current_speaker] when the loop of
    [_save_readable_transcript] has walked [us], having started with
    [current]: after each utterance it is that utterance's speaker. *)
Fixpoint speaker_after (current : option string) (us : list AlignedUtterance)
  : option string :=
  match us with
  | [] => current
  | u :: us' => speaker_after (Some (au_speaker u)) us'
  end.

(** A text without control characters (code points below 32). *)
Fixpoint no_control (s : string) : bool :=
  match s with
  | EmptyString => true
  | String c s' => (32 <=? N_of_ascii c)%N && no_control s'
  end.

(** ** The orchestrator

    [_save_all_outputs], [_convert_audio_if_needed],
    [transcribe_with_speakers] and [process_folder], with what lies
    outside the repository taken as given: [pathlib], the audio libraries,
    the two engines and the file system are the fields of [Engines].  The
    effects of a call are the list of its [event]s, in order; calls to the
    logger are left out. *)

(** What a writer puts into a file. *)
Inductive artifact : Type :=
| JsonFile (text : string)
| TranscriptFile (ws : list write)
| CsvFile (table : Csv).

(** A path below the output directory is the list of its components;
    [p / name] adds one (no component here is an absolute path). *)
Definition output_dir (base_dir : list string) (key : string) : list string :=
  base_dir ++ [key].

(** [_save_all_outputs]: the files written, in order, and how the call
    ends.  A writer that raises writes nothing, and the writers after it
    do not run. *)
Definition save_all_outputs (float_repr : Q -> string) (base_dir : list string)
    (segments : list AlignedUtterance) (output_name : string)
  : list (list string * artifact) * Py.result unit :=
  let json_path := output_dir base_dir "detailed" ++ [output_name +:+ "_detailed.json"] in
  let txt_path := output_dir base_dir "transcripts" ++ [output_name +:+ "_transcript.txt"] in
  let csv_path := output_dir base_dir "analysis" ++ [output_name +:+ "_analysis.csv"] in
  let written :=
    [ (json_path, JsonFile (save_detailed_json float_repr segments));
      (txt_path, TranscriptFile (save_readable_transcript segments)) ] in
  match save_csv_analysis segments with
  | Py.Ok table => (written ++ [(csv_path, CsvFile table)], Py.Ok tt)
  | Py.Raise e => (written, Py.Raise e)
  end.

(** An exception of the modelled code, or one raised inside an engine. *)
Inductive failure : Type :=
| Core (e : Py.exn)
| External (what : string).

Inductive outcome (A : Type) : Type :=
| Returned (a : A)
| Raised (f : failure).
Arguments Returned {A} a.
Arguments Raised {A} f.

Inductive event : Type :=
| Convert (src dst : string)
| Write (path : list string) (a : artifact)
| Remove (path : string).

Record Engines : Type := mkEngines {
  str_path : string -> string;
    (* str(Path(p)) *)
  suffix : string -> string;
    (* Path(p).suffix *)
  stem : string -> string;
    (* Path(p).stem *)
  sibling : string -> string -> string;
    (* str(Path(p).parent / name) *)
  convert_ok : string -> string -> bool;
    (* librosa.load(src) and sf.write(dst, ...) both return *)
  diarize : string -> outcome (list Turn);
    (* self.diarization_pipeline(path), as the turns of itertracks *)
  whisper : string -> outcome (list (gmap string Py.value));
    (* self.whisper_model.transcribe(path, ...)["segments"] *)
  path_exists : string -> bool;
    (* os.path.exists(p), when the finally block asks *)
  remove_ok : string -> bool
    (* os.remove(p) returns *)
}.

(** [c.lower()] for a code point below 256: the letters A-Z and the
    accented capitals of Latin-1 (all of 192..222 but the multiplication
    sign) move up by 32. *)
Definition lower_char (c : ascii) : ascii :=
  let n := N_of_ascii c in
  (if (65 <=? n) && (n <=? 90) || (192 <=? n) && (n <=? 222) && negb (n =? 215)
   then ascii_of_N (n + 32) else c)%N.

(** [s.lower()]. *)
Fixpoint str_lower (s : string) : string :=
  match s with
  | EmptyString => EmptyString
  | String c s' => String (lower_char c) (str_lower s')
  end.

(** [s.endswith(suffix)]. *)
Fixpoint endswith (s suffix : string) : bool :=
  if String.eqb s suffix then true
  else match s with
       | EmptyString => false
       | String _ s' => endswith s' suffix
       end.

(** [s.endswith(suffixes)] for a tuple of suffixes. *)
Definition endswith_any (s : string) (suffixes : list string) : bool :=
  existsb (endswith s) suffixes.

(** [s.startswith(prefix)]. *)
Fixpoint startswith (s prefix : string) : bool :=
  match prefix, s with
  | EmptyString, _ => true
  | String p prefix', String c s' => Ascii.eqb c p && startswith s' prefix'
  | String _ _, EmptyString => false
  end.

(** [os.path.join(a, b)] (posixpath). *)
Definition os_path_join (a b : string) : string :=
  if startswith b "/" then b
  else if String.eqb a EmptyString || endswith a "/" then a +:+ b
  else a +:+ "/" +:+ b.

(** [_convert_audio_if_needed]: the events and the path returned. *)
Definition convert_audio_if_needed (E : Engines) (audio_path : string)
  : list event * string :=
  if String.eqb (str_lower (suffix E audio_path)) ".wav" then
    ([], str_path E audio_path)
  else
    let temp_wav := sibling E audio_path (stem E audio_path +:+ "_temp.wav") in
    if convert_ok E (str_path E audio_path) temp_wav then
      ([Convert (str_path E audio_path) temp_wav], temp_wav)
    else ([], str_path E audio_path).

(** The [try] block of [transcribe_with_speakers]. *)
Definition transcribe_body (E : Engines) (float_repr : Q -> string)
    (base_dir : list string) (audio_path processed_audio_path : string)
    (output_name : option string)
  : list event * outcome (list AlignedUtterance) :=
  let output_name := default (stem E audio_path) output_name in
  match diarize E processed_audio_path with
  | Raised f => ([], Raised f)
  | Returned diarization =>
      match whisper E processed_audio_path with
      | Raised f => ([], Raised f)
      | Returned segments =>
          match align_transcription_with_speakers segments diarization with
          | Py.Raise e => ([], Raised (Core e))
          | Py.Ok segments_with_speakers =>
              let '(written, r) :=
                save_all_outputs float_repr base_dir segments_with_speakers
                                 output_name in
              (map (fun pa => Write (fst pa) (snd pa)) written,
               match r with
               | Py.Ok _ => Returned segments_with_speakers
               | Py.Raise e => Raised (Core e)
               end)
          end
      end
  end.

(** The [finally] block: the removal of the processed file, if the two
    path strings differ, the file exists and [os.remove] returns (an
    exception of [os.remove] is caught and only logged). *)
Definition cleanup (E : Engines) (audio_path processed_audio_path : string)
  : list event :=
  let temp_file_created := negb (String.eqb processed_audio_path audio_path) in
  if temp_file_created && path_exists E processed_audio_path then
    if remove_ok E processed_audio_path then [Remove processed_audio_path]
    else []
  else [].

(** [transcribe_with_speakers]. *)
Definition transcribe_with_speakers (E : Engines) (float_repr : Q -> string)
    (base_dir : list string) (audio_path : string) (output_name : option string)
  : list event * outcome (list AlignedUtterance) :=
  let '(converted, processed_audio_path) := convert_audio_if_needed E audio_path in
  let '(done, result) :=
    transcribe_body E float_repr base_dir audio_path processed_audio_path
                    output_name in
  (converted ++ done ++ cleanup E audio_path processed_audio_path, result).

(** [process_folder], given what [os.listdir] returned: the events of the
    calls and, for each file tried, its path and how its call ended.  An
    exception of a call is printed and the loop goes on.  The outside
    world may differ from call to call: [engines_at filename] is the world
    the call for [filename] meets. *)
Fixpoint process_folder (engines_at : string -> Engines) (float_repr : Q -> string)
    (base_dir : list string) (folder_path : string) (listing : list string)
    (supported_formats : list string)
  : list event * list (string * outcome (list AlignedUtterance)) :=
  match listing with
  | [] => ([], [])
  | filename :: rest =>
      let '(events, tried) :=
        process_folder engines_at float_repr base_dir folder_path rest
                       supported_formats in
      if endswith_any (str_lower filename) supported_formats then
        let audio_path := os_path_join folder_path filename in
        let '(ev, r) :=
          transcribe_with_speakers (engines_at filename) float_repr base_dir
                                   audio_path None in
        (ev ++ events, (audio_path, r) :: tried)
      else (events, tried)
  end.

(** The default of [supported_formats] in [process_folder], and
    [SUPPORTED_FORMATS] of [config.py]. *)
Definition default_formats : list string := [".wav"; ".mp3"; ".m4a"; ".flac"].

Definition SUPPORTED_FORMATS : list string :=
  [".wav"; ".mp3"; ".m4a"; ".flac"; ".ogg"; ".aac"].

(** Sample engines: paths are kept as they are but for a leading ["./"],
    every conversion works, each file has the turn and the two segments
    of the sample above, and every file asked for exists and can be
    removed. *)
Definition drop_dot_slash (p : string) : string :=
  match p with
  | String "." (String "/" p') => p'
  | _ => p
  end.

Fixpoint after_last_dot (acc s : string) : string :=
  match s with
  | EmptyString => acc
  | String c s' =>
      if Ascii.eqb c "." then after_last_dot s s' else after_last_dot acc s'
  end.

Definition sample_engines : Engines :=
  {| str_path := drop_dot_slash;
     suffix := fun p => after_last_dot EmptyString (drop_dot_slash p);
     stem := fun p => "meeting";
     sibling := fun p name => name;
     convert_ok := fun _ _ => true;
     diarize := fun _ => Returned one_turn;
     whisper := fun _ => Returned hello_world;
     path_exists := fun _ => true;
     remove_ok := fun _ => true |}.


(** ** The command line ([quick_transcribe.py])

    [main] prints messages and ends the process with a status.  The
    messages are kept as data, not as text (their text has characters
    outside Latin-1, and the duration is printed with one decimal); the
    constructor [MeetingTranscriber()] is taken as given: it raises, or
    gives the engines the call meets. *)

(** [max(xs)]: [ValueError] on an empty sequence; otherwise the first of
    the greatest items (an item replaces the current one only when it is
    greater). *)
Definition py_max_of (xs : list Q) : Py.result Q :=
  match xs with
  | [] => Py.Raise Py.ValueError
  | x :: xs' =>
      Py.Ok (fold_left Py.max xs' x)
  end.

(** [set(xs)], as the list of its elements: each once.  The order in which
    a set is walked is not fixed by the language; [sorted] below makes it
    irrelevant. *)
Definition py_set (xs : list string) : list string := remove_dups xs.

(** [sorted(xs)] for strings: a stable sort by [<], which on strings is
    the order of code points, letter by letter. *)
Fixpoint insert_sorted (x : string) (l : list string) : list string :=
  match l with
  | [] => [x]
  | y :: l' => if String.ltb y x then y :: insert_sorted x l' else x :: l
  end.

Definition sorted (xs : list string) : list string :=
  fold_right insert_sorted [] xs.

Inductive message : Type :=
| UsageLine
| ExampleHeading
| ExampleLine
| NotFound (audio_path : string)
| Starting (audio_path : string)
| Transcribed (segments : nat)
| SavedIn
| SummaryHeading
| Duration (total_duration : Q)
| Speakers (count : nat) (names : list string)
| ErrorDuring (f : failure).

(** [main] of [quick_transcribe.py]: what it prints, the events of the
    call it makes, and the exit status ([sys.exit(1)], or 0 when [main]
    returns). *)
Definition quick_main (argv : list string) (file_exists : string -> bool)
    (transcriber : outcome Engines) (float_repr : Q -> string)
    (base_dir : list string)
  : list message * list event * Z :=
  match argv with
  | [_; audio_path] =>
      if negb (file_exists audio_path) then ([NotFound audio_path], [], 1%Z)
      else
        match transcriber with
        | Raised f => ([Starting audio_path; ErrorDuring f], [], 1%Z)
        | Returned E =>
            let '(events, r) :=
              transcribe_with_speakers E float_repr base_dir audio_path None in
            match r with
            | Raised f => ([Starting audio_path; ErrorDuring f], events, 1%Z)
            | Returned result =>
                let speakers := py_set (map au_speaker result) in
                match py_max_of (map au_end result) with
                | Py.Raise e =>
                    ([Starting audio_path; Transcribed (length result); SavedIn;
                      ErrorDuring (Core e)], events, 1%Z)
                | Py.Ok total_duration =>
                    ([Starting audio_path; Transcribed (length result); SavedIn;
                      SummaryHeading; Duration total_duration;
                      Speakers (length speakers) (sorted speakers)],
                     events, 0%Z)
                end
            end
        end
  | _ => ([UsageLine; ExampleHeading; ExampleLine], [], 1%Z)
  end.

(** What the sample engines lead to: the two segments of the sample, both
    given to the one speaker. *)
Definition hello_world_aligned : list AlignedUtterance :=
  [ mkUtterance 0 3 3 "Speaker_00" "hello" (Py.VNum 0);
    mkUtterance 3 6 3 "Speaker_00" "world" (Py.VNum (-1 # 4)) ].

(** The files written among the events, in order. *)
Definition writes (events : list event) : list (list string * artifact) :=
  omap (fun ev => match ev with
                  | Write path a => Some (path, a)
                  | _ => None
                  end) events.

(** Sample engines whose transcription has whole numbers only. *)
Definition whole_engines : Engines :=
  {| str_path := drop_dot_slash;
     suffix := fun p => after_last_dot EmptyString (drop_dot_slash p);
     stem := fun p => "meeting";
     sibling := fun p name => name;
     convert_ok := fun _ _ => true;
     diarize := fun _ => Returned one_turn;
     whisper := fun _ => Returned (take 1 hello_world);
     path_exists := fun _ => true;
     remove_ok := fun _ => true |}.
(* ====================================================================== *)
(** * Theorems *)

(** ** Comparisons and the overlap of one turn *)

Section Overlap.
Local Open Scope Q_scope.

Lemma ltb_lt (a b : Q) : Py.ltb a b = true <-> a < b.
Proof.
  unfold Py.ltb. rewrite Qlt_alt. destruct (a ?= b); split; congruence.
Qed.

Lemma ltb_ge (a b : Q) : Py.ltb a b = false <-> b <= a.
Proof.
  rewrite <- not_true_iff_false, ltb_lt. split; [apply Qnot_lt_le | apply Qle_not_lt].
Qed.

Lemma py_max_Qmax (a b : Q) : Py.max a b == Qmax a b.
Proof.
  unfold Py.max. destruct (Py.ltb a b) eqn:E;
    [apply ltb_lt in E | apply ltb_ge in E];
    destruct (Q.max_spec a b) as [[? ->]|[? ->]]; lra.
Qed.

Lemma py_min_Qmin (a b : Q) : Py.min a b == Qmin a b.
Proof.
  unfold Py.min. destruct (Py.ltb b a) eqn:E;
    [apply ltb_lt in E | apply ltb_ge in E];
    destruct (Q.min_spec a b) as [[? ->]|[? ->]]; lra.
Qed.

Lemma raw_overlap_Q (s e : Q) (t : Turn) :
  Py.min e (turn_end t) - Py.max s (turn_start t)
  == Qmin e (turn_end t) - Qmax s (turn_start t).
Proof. now rewrite py_max_Qmax, py_min_Qmin. Qed.

Lemma guard_true (s e : Q) (t : Turn) :
  Py.ltb (Py.max s (turn_start t)) (Py.min e (turn_end t)) = true <->
  0 < overlap s e t.
Proof.
  rewrite ltb_lt, py_max_Qmax, py_min_Qmin. unfold overlap.
  destruct (Q.max_spec 0 (Qmin e (turn_end t) - Qmax s (turn_start t)))
    as [[? ->]|[? ->]]; split; lra.
Qed.

Lemma guard_true_overlap (s e : Q) (t : Turn) :
  0 < overlap s e t ->
  Py.min e (turn_end t) - Py.max s (turn_start t) == overlap s e t.
Proof.
  rewrite raw_overlap_Q. unfold overlap.
  destruct (Q.max_spec 0 (Qmin e (turn_end t) - Qmax s (turn_start t)))
    as [[? ->]|[? ->]]; lra.
Qed.

Lemma guard_false_overlap (s e : Q) (t : Turn) :
  ~ 0 < overlap s e t -> overlap s e t == 0.
Proof.
  unfold overlap.
  destruct (Q.max_spec 0 (Qmin e (turn_end t) - Qmax s (turn_start t)))
    as [[? ->]|[? ->]]; lra.
Qed.

Lemma overlap_nonneg (s e : Q) (t : Turn) : 0 <= overlap s e t.
Proof.
  unfold overlap.
  destruct (Q.max_spec 0 (Qmin e (turn_end t) - Qmax s (turn_start t)))
    as [[? ->]|[? ->]]; lra.
Qed.

End Overlap.

(** ** The accumulation loop *)

Section Accumulate.
Local Open Scope Q_scope.

Lemma Qsum_app (l1 l2 : list Q) : Qsum (l1 ++ l2) == Qsum l1 + Qsum l2.
Proof. induction l1 as [|x l1 IH]; simpl; [lra | rewrite IH; lra]. Qed.

Lemma total_overlap_snoc s e turns t k :
  total_overlap s e (turns ++ [t]) k ==
  total_overlap s e turns k + (if decide (turn_speaker t = k) then overlap s e t else 0).
Proof.
  unfold total_overlap, turns_of. rewrite filter_app, map_app, Qsum_app.
  rewrite filter_cons, filter_nil. case_decide; simpl; lra.
Qed.

Lemma first_positive_lt s e turns k i :
  first_positive s e turns k = Some i -> (i < length turns)%nat.
Proof.
  revert i. induction turns as [|t ts IH]; intros i; simpl; [done|].
  destruct (decide _); [destruct (Py.ltb _ _)|].
  - intros [= <-]. lia.
  - destruct (first_positive s e ts k) as [j|]; simpl; [|done].
    intros [= <-]. specialize (IH j eq_refl). lia.
  - destruct (first_positive s e ts k) as [j|]; simpl; [|done].
    intros [= <-]. specialize (IH j eq_refl). lia.
Qed.

Lemma first_positive_snoc s e turns t k :
  first_positive s e (turns ++ [t]) k =
  match first_positive s e turns k with
  | Some i => Some i
  | None =>
      if decide (turn_speaker t = k) then
        if Py.ltb 0 (overlap s e t) then Some (length turns) else None
      else None
  end.
Proof.
  induction turns as [|t' ts IH]; simpl.
  - destruct (decide _); [destruct (Py.ltb _ _)|]; reflexivity.
  - destruct (decide (turn_speaker t' = k)); [destruct (Py.ltb 0 (overlap s e t'))|];
      try reflexivity; rewrite IH;
      destruct (first_positive s e ts k); simpl; try reflexivity;
      destruct (decide _); [destruct (Py.ltb _ _)| |destruct (Py.ltb _ _)|]; reflexivity.
Qed.

Lemma first_positive_Some s e turns k :
  is_Some (first_positive s e turns k) <->
  exists t, In t turns /\ turn_speaker t = k /\ 0 < overlap s e t.
Proof.
  induction turns as [|t ts IH]; simpl.
  - split; [intros [? [=]] | intros (? & [] & _)].
  - split.
    + destruct (decide (turn_speaker t = k)) as [E|NE];
        [destruct (Py.ltb 0 (overlap s e t)) eqn:G|].
      * intros _. exists t. apply ltb_lt in G. auto.
      * rewrite fmap_is_Some, IH. intros (t' & ? & ? & ?). exists t'. auto.
      * rewrite fmap_is_Some, IH. intros (t' & ? & ? & ?). exists t'. auto.
    + intros (t' & [<-|Hin] & E & G).
      * apply ltb_lt in G. rewrite decide_True, G by done. eauto.
      * assert (is_Some (first_positive s e ts k)) as [i Hi]
          by (apply IH; eauto).
        rewrite Hi. simpl. destruct (decide _); [destruct (Py.ltb _ _)|]; eauto.
Qed.

Lemma dict_get_add_eq d k x :
  dict_get (dict_add d k x) k = Some (default 0 (dict_get d k) + x).
Proof.
  induction d as [|[k0 v] d IH]; simpl.
  - now rewrite String.eqb_refl.
  - destruct (String.eqb k0 k) eqn:E; simpl; rewrite E; [reflexivity | apply IH].
Qed.

Lemma dict_get_add_ne d k k' x :
  k <> k' -> dict_get (dict_add d k x) k' = dict_get d k'.
Proof.
  intros NE. induction d as [|[k0 v] d IH]; simpl.
  - apply String.eqb_neq in NE. now rewrite NE.
  - destruct (String.eqb k0 k) eqn:E; simpl.
    + apply String.eqb_eq in E. subst k0.
      apply String.eqb_neq in NE. now rewrite NE.
    + now rewrite IH.
Qed.

Lemma dict_add_keys d k x :
  map fst (dict_add d k x) =
  match dict_get d k with
  | Some _ => map fst d
  | None => map fst d ++ [k]
  end.
Proof.
  induction d as [|[k0 v] d IH]; simpl; [reflexivity|].
  destruct (String.eqb k0 k) eqn:E; simpl; [reflexivity|].
  rewrite IH. now destruct (dict_get d k).
Qed.

Lemma dict_get_None d k : dict_get d k = None <-> ~ In k (map fst d).
Proof.
  induction d as [|[k0 v] d IH]; simpl; [tauto|].
  destruct (String.eqb_spec k0 k); [split; [discriminate | tauto] | tauto].
Qed.

Lemma dict_get_In d k v :
  NoDup (map fst d) -> In (k, v) d <-> dict_get d k = Some v.
Proof.
  induction d as [|[k0 v0] d IH]; simpl; intros ND.
  - split; [tauto | discriminate].
  - apply NoDup_cons in ND as [Hnotin ND].
    destruct (String.eqb_spec k0 k) as [->|NE].
    + split.
      * intros [[= ->]|Hin]; [reflexivity|].
        exfalso. apply Hnotin, list_elem_of_In, in_map_iff. now exists (k, v).
      * intros [= ->]. now left.
    + rewrite <- IH by assumption. split; [|tauto].
      intros [[= -> _]|?]; [congruence | assumption].
Qed.

Lemma accumulate_snoc s e turns t :
  accumulate s e (turns ++ [t]) = accumulate_turn s e (accumulate s e turns) t.
Proof. unfold accumulate. now rewrite fold_left_app. Qed.

Lemma key_is_Some d i k : map fst d !! i = Some k -> is_Some (dict_get d k).
Proof.
  intros H. destruct (dict_get d k) eqn:E; [eauto|].
  apply dict_get_None in E. exfalso. apply E, list_elem_of_In.
  eapply list_elem_of_lookup_2; eauto.
Qed.

Lemma acc_inv_skip s e turns d t :
  ~ 0 < overlap s e t -> acc_inv s e turns d -> acc_inv s e (turns ++ [t]) d.
Proof.
  intros G [ND TOT POS KEYS ORD].
  assert (F : forall k, first_positive s e (turns ++ [t]) k = first_positive s e turns k).
  { intros k. rewrite first_positive_snoc.
    destruct (first_positive s e turns k); [reflexivity|].
    destruct (decide _); [|reflexivity].
    destruct (Py.ltb 0 (overlap s e t)) eqn:L; [|reflexivity].
    apply ltb_lt in L. contradiction. }
  split; [assumption | | assumption | |].
  - intros k. rewrite total_overlap_snoc, TOT.
    apply guard_false_overlap in G. destruct (decide _); lra.
  - intros k. now rewrite F.
  - intros i j k1 k2 ? ? ?. rewrite !F. eauto.
Qed.

Lemma acc_inv_add s e turns d t x :
  0 < overlap s e t -> x == overlap s e t ->
  acc_inv s e turns d ->
  acc_inv s e (turns ++ [t]) (dict_add d (turn_speaker t) x).
Proof.
  intros G Hx [ND TOT POS KEYS ORD].
  assert (L : Py.ltb 0 (overlap s e t) = true) by now apply ltb_lt.
  assert (Fold : forall k i, first_positive s e turns k = Some i ->
                        first_positive s e (turns ++ [t]) k = Some i).
  { intros k i H. now rewrite first_positive_snoc, H. }
  split.
  - rewrite dict_add_keys. destruct (dict_get d (turn_speaker t)) eqn:E; [assumption|].
    apply dict_get_None in E. apply NoDup_app. repeat split; [assumption | | apply NoDup_singleton].
    intros k Hk Hk'. apply list_elem_of_singleton in Hk' as ->.
    now apply E, list_elem_of_In.
  - intros k. rewrite total_overlap_snoc.
    destruct (decide (turn_speaker t = k)) as [<-|NE].
    + rewrite dict_get_add_eq. simpl. rewrite TOT, Hx. reflexivity.
    + rewrite dict_get_add_ne by assumption. rewrite TOT. lra.
  - intros k v.
    destruct (decide (turn_speaker t = k)) as [<-|NE].
    + rewrite dict_get_add_eq. intros [= <-].
      destruct (dict_get d (turn_speaker t)) as [v0|] eqn:E; simpl.
      * specialize (POS _ _ E). lra.
      * lra.
    + rewrite dict_get_add_ne by assumption. apply POS.
  - intros k. rewrite first_positive_snoc.
    destruct (decide (turn_speaker t = k)) as [<-|NE].
    + rewrite dict_get_add_eq, L. split; intros _; [|eauto].
      destruct (first_positive s e turns (turn_speaker t)); eauto.
    + rewrite dict_get_add_ne by assumption. rewrite KEYS.
      destruct (first_positive s e turns k); [tauto|].
      split; intros [? [=]].
  - intros i j k1 k2. rewrite dict_add_keys.
    destruct (dict_get d (turn_speaker t)) eqn:E.
    + intros H1 H2 Hlt. destruct (ORD i j k1 k2 H1 H2 Hlt) as (a & b & Ha & Hb & Hab).
      exists a, b. auto.
    + intros H1 H2 Hlt.
      assert (Hj : (j < length (map fst d ++ [turn_speaker t]))%nat)
        by (eapply lookup_lt_Some; eauto).
      rewrite length_app in Hj. simpl in Hj.
      rewrite lookup_app_l in H1 by lia.
      destruct (decide (j < length (map fst d))%nat) as [Hj'|Hj'].
      * rewrite lookup_app_l in H2 by lia.
        destruct (ORD i j k1 k2 H1 H2 Hlt) as (a & b & Ha & Hb & Hab).
        exists a, b. auto.
      * rewrite lookup_app_r in H2 by lia.
        replace (j - length (map fst d))%nat with 0%nat in H2 by lia.
        injection H2 as <-.
        destruct (key_is_Some _ _ _ H1) as [v1 Hv1].
        assert (is_Some (first_positive s e turns k1)) as [a Ha]
          by (apply KEYS; eauto).
        exists a, (length turns). split; [auto|]. split.
        -- rewrite first_positive_snoc.
           assert (first_positive s e turns (turn_speaker t) = None) as ->.
           { destruct (first_positive s e turns (turn_speaker t)) eqn:F; [|reflexivity].
             assert (is_Some (dict_get d (turn_speaker t))) as [? Hs]
               by (apply KEYS; eauto).
             congruence. }
           now rewrite decide_True, L.
        -- eapply first_positive_lt; eauto.
Qed.

Lemma accumulate_inv s e turns : acc_inv s e turns (accumulate s e turns).
Proof.
  induction turns as [|t turns IH] using rev_ind.
  - split; simpl.
    + constructor.
    + intros k. reflexivity.
    + intros k v [=].
    + intros k. split; intros [? [=]].
    + intros i j k1 k2 H. destruct i; discriminate.
  - rewrite accumulate_snoc. unfold accumulate_turn.
    destruct (Py.ltb _ _) eqn:G.
    + apply guard_true in G. apply acc_inv_add; auto.
      now apply guard_true_overlap.
    + apply acc_inv_skip; auto. rewrite <- guard_true. congruence.
Qed.

Lemma max_walk_spec rest : forall pre m mv mid,
  Forall (fun p => snd p < mv) pre ->
  Forall (fun p => snd p <= mv) mid ->
  exists pre' wv post,
    pre ++ (m, mv) :: mid ++ rest = pre' ++ (max_walk m mv rest, wv) :: post /\
    Forall (fun p : string * Q => snd p < wv) pre' /\
    Forall (fun p : string * Q => snd p <= wv) post.
Proof.
  induction rest as [|[item val] rest IH]; intros pre m mv mid Hpre Hmid; simpl.
  - exists pre, mv, mid. rewrite app_nil_r. auto.
  - destruct (Py.ltb mv val) eqn:G.
    + apply ltb_lt in G.
      destruct (IH (pre ++ (m, mv) :: mid) item val []) as (pre' & wv & post & E & H1 & H2).
      * apply Forall_app. split; [|constructor].
        -- eapply Forall_impl; [exact Hpre|]. simpl. intros; lra.
        -- simpl. lra.
        -- eapply Forall_impl; [exact Hmid|]. simpl. intros; lra.
      * constructor.
      * exists pre', wv, post. split; [|auto].
        rewrite <- E. simpl. now rewrite <- app_assoc.
    + apply ltb_ge in G.
      destruct (IH pre m mv (mid ++ [(item, val)])) as (pre' & wv & post & E & H1 & H2).
      * assumption.
      * apply Forall_app. split; [assumption|]. constructor; [simpl; lra | constructor].
      * exists pre', wv, post. split; [|auto].
        rewrite <- E. now rewrite <- app_assoc.
Qed.

Lemma max_by_value_spec first rest :
  exists pre wv post,
    first :: rest = pre ++ (max_by_value first rest, wv) :: post /\
    Forall (fun p : string * Q => snd p < wv) pre /\
    Forall (fun p : string * Q => snd p <= wv) post.
Proof.
  destruct first as [m mv]. unfold max_by_value. simpl.
  destruct (max_walk_spec rest [] m mv []) as (pre & wv & post & E & ?);
    [constructor | constructor |].
  exists pre, wv, post. auto.
Qed.

(** The winner of a non-empty accumulation: its place in the dict and what
    that place says about every other speaker. *)
Lemma winner_spec s e turns first rest :
  accumulate s e turns = first :: rest ->
  let w := max_by_value first rest in
  exists i,
    first_positive s e turns w = Some i /\
    (forall k, total_overlap s e turns k <= total_overlap s e turns w) /\
    (forall k, k <> w ->
       total_overlap s e turns k == total_overlap s e turns w ->
       exists j, first_positive s e turns k = Some j /\ (i < j)%nat).
Proof.
  intros Hd w.
  destruct (accumulate_inv s e turns) as [ND TOT POS KEYS ORD].
  rewrite Hd in *.
  destruct (max_by_value_spec first rest) as (pre & wv & post & E & Hpre & Hpost).
  fold w in E. set (d := first :: rest) in *. clearbody d.
  assert (Hw : dict_get d w = Some wv).
  { apply dict_get_In; [assumption|]. rewrite E. apply in_or_app. right. now left. }
  assert (Hwtot : wv == total_overlap s e turns w).
  { rewrite <- TOT, Hw. reflexivity. }
  assert (Hwpos : 0 < wv) by eauto.
  assert (Hval : forall k v, dict_get d k = Some v ->
            (In (k, v) pre /\ v < wv) \/ (k = w /\ v = wv) \/ (In (k, v) post /\ v <= wv)).
  { intros k v Hk. apply dict_get_In in Hk; [|assumption]. rewrite E in Hk.
    apply in_app_or in Hk as [Hk|[[= -> ->]|Hk]].
    - left. split; [assumption|]. rewrite Forall_forall in Hpre.
      apply (Hpre (k, v)). now apply list_elem_of_In.
    - right. left. auto.
    - right. right. split; [assumption|]. rewrite Forall_forall in Hpost.
      apply (Hpost (k, v)). now apply list_elem_of_In. }
  assert (Hwi : map fst d !! length pre = Some w).
  { rewrite E, map_app. rewrite lookup_app_r by (rewrite length_map; lia).
    rewrite length_map, Nat.sub_diag. reflexivity. }
  assert (is_Some (first_positive s e turns w)) as [i Hi] by (apply KEYS; eauto).
  exists i. split; [assumption|]. split.
  - intros k. rewrite <- (TOT k), <- Hwtot.
    destruct (dict_get d k) as [v|] eqn:Hk; simpl; [|lra].
    destruct (Hval k v Hk) as [[_ ?]|[[_ ->]|[_ ?]]]; lra.
  - intros k NE Htie. rewrite <- (TOT k), <- Hwtot in Htie.
    destruct (dict_get d k) as [v|] eqn:Hk; simpl in Htie; [|lra].
    destruct (Hval k v Hk) as [[_ ?]|[[? _]|[Hin _]]]; [lra | contradiction |].
    apply list_elem_of_In, list_elem_of_lookup_1 in Hin as [n Hn].
    assert (Hkj : map fst d !! (length pre + S n)%nat = Some k).
    { rewrite E, map_app. rewrite lookup_app_r by (rewrite length_map; lia).
      rewrite length_map. replace (length pre + S n - length pre)%nat with (S n) by lia.
      simpl. rewrite list_lookup_fmap, Hn. reflexivity. }
    destruct (ORD _ _ _ _ Hwi Hkj ltac:(lia)) as (a & b & Ha & Hb & Hab).
    exists b. split; [assumption|]. congruence.
Qed.

Lemma accumulate_keys s e turns k :
  In k (map fst (accumulate s e turns)) <->
  exists t, In t turns /\ turn_speaker t = k /\ 0 < overlap s e t.
Proof.
  destruct (accumulate_inv s e turns) as [_ _ _ KEYS _].
  rewrite <- first_positive_Some, <- KEYS.
  destruct (dict_get (accumulate s e turns) k) eqn:E.
  - split; [eauto|]. intros _.
    destruct (in_dec string_dec k (map fst (accumulate s e turns))); [assumption|].
    apply dict_get_None in n. congruence.
  - apply dict_get_None in E. split; [tauto | intros [? [=]]].
Qed.

Lemma find_dominant_speaker_num s e turns :
  find_dominant_speaker (Py.VNum s) (Py.VNum e) turns
  = Py.Ok (dominant_label s e turns).
Proof. reflexivity. Qed.


Lemma dominant_label_unknown (s e : Q) (turns : list Turn) :
  (forall t, In t turns -> ~ 0 < overlap s e t) ->
  dominant_label s e turns = "Unknown".
Proof.
  intros H. unfold dominant_label.
  destruct (accumulate s e turns) as [|[k v] rest] eqn:Hd; [reflexivity|].
  assert (Hk : In k (map fst (accumulate s e turns))) by (rewrite Hd; now left).
  apply accumulate_keys in Hk as (t & Hin & _ & Hpos).
  now destruct (H t Hin).
Qed.

(** C3.  When no turn overlaps the span by a strictly positive amount, and
    in particular when there are no turns at all, the label is the
    sentinel ["Unknown"]. *)
Theorem no_overlap_unknown (s e : Q) :
  find_dominant_speaker (Py.VNum s) (Py.VNum e) [] = Py.Ok "Unknown" /\
  forall turns,
    (forall t, In t turns -> ~ 0 < overlap s e t) ->
    find_dominant_speaker (Py.VNum s) (Py.VNum e) turns = Py.Ok "Unknown".
Proof.
  split; [reflexivity|]. intros turns H.
  rewrite find_dominant_speaker_num. f_equal. now apply dominant_label_unknown.
Qed.

Lemma no_overlap_unknown_witness :
  find_dominant_speaker (Py.VNum 0) (Py.VNum 2) [mkTurn 2 5 "SPEAKER_00"; mkTurn 7 9 "SPEAKER_01"]
  = Py.Ok "Unknown".
Proof.
  apply (proj2 (no_overlap_unknown 0 2)).
  intros t [<-|[<-|[]]]; vm_compute; discriminate.
Defined.



Example accumulate_example :
  accumulate 0 10
    [mkTurn 0 2 "SPEAKER_01"; mkTurn 2 5 "SPEAKER_00"; mkTurn 5 8 "SPEAKER_01";
     mkTurn 20 30 "SPEAKER_02"]
  = [("SPEAKER_01", 5); ("SPEAKER_00", 3)].
Proof. vm_compute. reflexivity. Qed.

Example dominance_example :
  find_dominant_speaker (Py.VNum 0) (Py.VNum 10) [mkTurn 0 6 "S1"; mkTurn 6 10 "S2"]
  = Py.Ok "Speaker_S1".
Proof. vm_compute. reflexivity. Qed.

(** An even split goes to the speaker whose turn is met first. *)
Example tie_first_turn_wins :
  find_dominant_speaker (Py.VNum 0) (Py.VNum 10) [mkTurn 0 5 "S1"; mkTurn 5 10 "S2"]
  = Py.Ok "Speaker_S1" /\
  find_dominant_speaker (Py.VNum 0) (Py.VNum 10) [mkTurn 5 10 "S2"; mkTurn 0 5 "S1"]
  = Py.Ok "Speaker_S2".
Proof. split; vm_compute; reflexivity. Qed.

End Accumulate.

(** ** Label normalization *)

Section Labels.

Lemma append_cons (c : ascii) (s1 s2 : string) :
  String c s1 +:+ s2 = String c (s1 +:+ s2).
Proof. reflexivity. Qed.

Lemma append_nil (s : string) : EmptyString +:+ s = s.
Proof. reflexivity. Qed.

Lemma split_snoc (sep : ascii) (s : string) :
  exists toks suffix,
    split sep s = toks ++ [suffix] /\
    occurs sep suffix = false /\
    (toks = [] -> s = suffix) /\
    (toks <> [] -> exists prefix, s = prefix +:+ String sep suffix).
Proof.
  induction s as [|c s (toks & suffix & E & Hocc & Hnil & Hcons)]; simpl.
  - exists [], EmptyString. split; [reflexivity|]. split; [reflexivity|].
    split; [reflexivity | congruence].
  - destruct (Ascii.eqb_spec c sep) as [->|NE].
    + exists (EmptyString :: toks), suffix. rewrite E.
      split; [reflexivity|]. split; [assumption|]. split; [discriminate|].
      intros _.
      destruct toks as [|tok toks].
      * exists EmptyString. simpl. now rewrite Hnil.
      * destruct Hcons as [prefix ->]; [discriminate|].
        now exists (String sep prefix).
    + rewrite E. destruct toks as [|tok toks]; simpl.
      * exists [], (String c suffix). simpl.
        apply Ascii.eqb_neq in NE. rewrite NE, Hocc.
        split; [reflexivity|]. split; [reflexivity|]. split; [|congruence].
        intros _. now rewrite Hnil.
      * exists (String c tok :: toks), suffix.
        split; [reflexivity|]. split; [assumption|]. split; [discriminate|].
        intros _.
        destruct Hcons as [prefix ->]; [discriminate|].
        now exists (String c prefix).
Qed.

(** C5.  The normalized label is ["Speaker_"] followed by the token after
    the last underscore of the raw id (the whole id when it has no
    underscore), and it depends on the raw id alone. *)
Theorem normalize_label_suffix (raw : string) :
  (exists suffix,
     normalize_label raw = "Speaker_" +:+ suffix /\
     occurs "_" suffix = false /\
     (raw = suffix \/ exists prefix, raw = prefix +:+ "_" +:+ suffix)) /\
  (forall raw', raw' = raw -> normalize_label raw' = normalize_label raw).
Proof.
  split; [|now intros ? ->].
  destruct (split_snoc "_" raw) as (toks & suffix & E & Hocc & Hnil & Hcons).
  exists suffix. unfold normalize_label. rewrite E, last_last.
  split; [reflexivity|]. split; [assumption|].
  destruct toks; [left; auto | right; apply Hcons; discriminate].
Qed.

Lemma normalize_label_suffix_witness :
  exists suffix,
    normalize_label "meeting_room_A" = "Speaker_" +:+ suffix /\
    occurs "_" suffix = false /\
    ("meeting_room_A" = suffix \/
     exists prefix, "meeting_room_A" = prefix +:+ "_" +:+ suffix).
Proof. exact (proj1 (normalize_label_suffix "meeting_room_A")). Defined.

Example normalize_label_examples :
  normalize_label "SPEAKER_00" = "Speaker_00" /\
  normalize_label "meeting_room_A" = "Speaker_A" /\
  normalize_label "alice" = "Speaker_alice" /\
  normalize_label "trailing_" = "Speaker_".
Proof. repeat split. Qed.

End Labels.

(** ** Trimming *)

Section Strip.




End Strip.

(** ** The aligner *)

Section Aligner.

Lemma align_segment_ok (segment : gmap string Py.value) turns s e t :
  segment !! "start" = Some (Py.VNum s) ->
  segment !! "end" = Some (Py.VNum e) ->
  segment !! "text" = Some (Py.VStr t) ->
  align_segment segment turns =
  Py.Ok {| au_start := s;
           au_end := e;
           au_duration := (e - s)%Q;
           au_speaker := dominant_label s e turns;
           au_text := Py.rstrip (Py.lstrip t);
           au_confidence := default (Py.VNum 0) (segment !! "avg_logprob") |}.
Proof.
  intros Hs He Ht. unfold align_segment, Py.getitem, Py.get.
  rewrite Hs, He, Ht. simpl. now destruct (segment !! "avg_logprob").
Qed.

(** The loop pairs every segment with the utterance its body builds. *)
Lemma align_Forall2 (segments : list (gmap string Py.value)) turns :
  Forall well_formed segments ->
  exists us,
    align_transcription_with_speakers segments turns = Py.Ok us /\
    Forall2 (fun segment u =>
               well_formed segment /\ align_segment segment turns = Py.Ok u)
            segments us.
Proof.
  induction 1 as [|segment segments Hwf _ (us & E & IH)]; simpl.
  - exists []. split; [reflexivity | constructor].
  - pose proof Hwf as (s & e & t & Hs & He & Ht).
    rewrite (align_segment_ok _ turns _ _ _ Hs He Ht), E. simpl.
    eexists. split; [reflexivity|]. constructor; [|exact IH].
    split; [assumption | now apply align_segment_ok].
Qed.

(** Whatever the segments hold, a returned list has one item per segment. *)
Lemma align_length (segments : list (gmap string Py.value)) turns :
  forall us, align_transcription_with_speakers segments turns = Py.Ok us ->
  length us = length segments.
Proof.
  induction segments as [|segment segments IH]; simpl; intros us.
  - now intros [= <-].
  - destruct (align_segment segment turns) as [u|]; simpl; [|discriminate].
    destruct (align_transcription_with_speakers segments turns) as [us'|];
      simpl; [|discriminate].
    intros [= <-]. simpl. now rewrite (IH us').
Qed.

(** C2.  The aligner returns exactly one utterance per span, in span
    order: the i-th utterance is the one built from the i-th span; no
    spans give no utterances; and whatever the segment dicts hold, a list
    that is returned has as many items as there are segments. *)
Theorem align_one_per_span (segments : list (gmap string Py.value)) turns :
  align_transcription_with_speakers [] turns = Py.Ok [] /\
  (forall us, align_transcription_with_speakers segments turns = Py.Ok us ->
     length us = length segments) /\
  (Forall well_formed segments ->
   exists us,
     align_transcription_with_speakers segments turns = Py.Ok us /\
     length us = length segments /\
     forall i segment, segments !! i = Some segment ->
       exists u, us !! i = Some u /\ align_segment segment turns = Py.Ok u).
Proof.
  split; [reflexivity|]. split; [apply align_length|]. intros Hwf.
  destruct (align_Forall2 segments turns Hwf) as (us & E & F).
  exists us. split; [assumption|]. split; [symmetry; eapply Forall2_length; eauto|].
  intros i segment Hi.
  destruct (Forall2_lookup_l _ _ _ _ _ F Hi) as (u & Hu & _ & Hal). eauto.
Qed.

Lemma hello_world_well_formed : Forall well_formed hello_world.
Proof.
  repeat constructor.
  - exists 0%Q, 3%Q, " hello ". repeat split; reflexivity.
  - exists 3%Q, 6%Q, "world". repeat split; reflexivity.
Qed.

Lemma align_one_per_span_witness :
  exists us,
    align_transcription_with_speakers hello_world one_turn = Py.Ok us /\
    length us = length hello_world /\
    forall i segment, hello_world !! i = Some segment ->
      exists u, us !! i = Some u /\ align_segment segment one_turn = Py.Ok u.
Proof.
  apply (proj2 (proj2 (align_one_per_span hello_world one_turn))).
  repeat constructor.
  - exists 0%Q, 3%Q, " hello ". repeat split; reflexivity.
  - exists 3%Q, 6%Q, "world". repeat split; reflexivity.
Defined.



Example align_hello_world :
  align_transcription_with_speakers hello_world one_turn =
  Py.Ok [ mkUtterance 0 3 3 "Speaker_00" "hello" (Py.VNum 0);
          mkUtterance 3 6 3 "Speaker_00" "world" (Py.VNum (-1 # 4)) ].
Proof. vm_compute. reflexivity. Qed.

(** The raising paths: a missing key, a text that is not a string, a time
    that is not a number. *)
Example align_missing_key :
  align_transcription_with_speakers
    [ {[ "start" := Py.VNum 0; "end" := Py.VNum 3 ]} ] one_turn
  = Py.Raise (Py.KeyError "text").
Proof. vm_compute. reflexivity. Qed.

Example align_text_not_str :
  align_transcription_with_speakers
    [ {[ "start" := Py.VNum 0; "end" := Py.VNum 3; "text" := Py.VNum 7 ]} ] one_turn
  = Py.Raise (Py.AttributeError "strip").
Proof. vm_compute. reflexivity. Qed.

Example align_time_not_number :
  align_transcription_with_speakers
    [ {[ "start" := Py.VStr "0"; "end" := Py.VNum 3; "text" := Py.VStr "hi" ]} ] one_turn
  = Py.Raise Py.TypeError.
Proof. vm_compute. reflexivity. Qed.

(** A span that ends no later than it starts overlaps no turn. *)
Lemma nonpositive_span_no_overlap (s e : Q) (t : Turn) :
  (e <= s)%Q -> ~ (0 < overlap s e t)%Q.
Proof.
  intros Hle. unfold overlap.
  destruct (Q.min_spec e (turn_end t)) as [[? ->]|[? ->]];
  destruct (Q.max_spec s (turn_start t)) as [[? ->]|[? ->]];
  match goal with |- ~ (0 < Qmax 0 ?x)%Q =>
    destruct (Q.max_spec 0 x) as [[? ->]|[? ->]] end; lra.
Qed.

(** C4, as the code has it.  A span whose end is not after its start is
    not rejected: the aligner returns, and the utterance built for the
    span has the duration [end - start], which is zero or negative, and
    the label ["Unknown"]. *)
Theorem nonpositive_span_aligned (segments : list (gmap string Py.value)) turns :
  Forall well_formed segments ->
  exists us,
    align_transcription_with_speakers segments turns = Py.Ok us /\
    Forall2 (fun segment u =>
      forall s e,
        segment !! "start" = Some (Py.VNum s) ->
        segment !! "end" = Some (Py.VNum e) ->
        (e <= s)%Q ->
        au_duration u = (e - s)%Q /\ (au_duration u <= 0)%Q /\
        au_speaker u = "Unknown")
      segments us.
Proof.
  intros Hwf. destruct (align_Forall2 segments turns Hwf) as (us & E & F).
  exists us. split; [assumption|].
  eapply Forall2_impl; [exact F|]. clear. simpl.
  intros segment u [(s & e & t & Hs & He & Ht) Hal] s' e' Hs' He' Hle.
  rewrite Hs in Hs'. rewrite He in He'. injection Hs' as <-. injection He' as <-.
  rewrite (align_segment_ok _ turns _ _ _ Hs He Ht) in Hal.
  injection Hal as <-. simpl. split; [reflexivity|]. split; [lra|].
  apply dominant_label_unknown. intros t' _.
  now apply nonpositive_span_no_overlap.
Qed.

Lemma nonpositive_span_aligned_witness :
  exists us,
    align_transcription_with_speakers [backwards_span] one_turn = Py.Ok us /\
    Forall2 (fun segment u =>
      forall s e,
        segment !! "start" = Some (Py.VNum s) ->
        segment !! "end" = Some (Py.VNum e) ->
        (e <= s)%Q ->
        au_duration u = (e - s)%Q /\ (au_duration u <= 0)%Q /\
        au_speaker u = "Unknown")
      [backwards_span] us.
Proof.
  apply (nonpositive_span_aligned [backwards_span] one_turn).
  repeat constructor.
  exists 5%Q, 3%Q, "oops". repeat split; reflexivity.
Defined.

(** The claim of C4 fails on the code: the span [5, 3] is aligned, not
    rejected. *)
Lemma invalid_span_not_rejected :
  backwards_span !! "start" = Some (Py.VNum 5) /\
  backwards_span !! "end" = Some (Py.VNum 3) /\
  (3 <= 5)%Q /\
  align_transcription_with_speakers [backwards_span] one_turn
  = Py.Ok [ mkUtterance 5 3 (-2) "Unknown" "oops" (Py.VNum 0) ] /\
  ~ exists err,
      align_transcription_with_speakers [backwards_span] one_turn = Py.Raise err.
Proof.
  assert (E : align_transcription_with_speakers [backwards_span] one_turn
              = Py.Ok [ mkUtterance 5 3 (-2) "Unknown" "oops" (Py.VNum 0) ])
    by (vm_compute; reflexivity).
  repeat split; try reflexivity; try assumption.
  - discriminate.
  - intros [err H]. rewrite E in H. discriminate.
Qed.

End Aligner.

(** ** The readable transcript *)

Section Transcript.
Local Open Scope Q_scope.

Lemma int_floor (x : Q) : 0 <= x -> Py.int x = Qfloor x.
Proof.
  destruct x as [n d]. unfold Qle, Py.int, Qfloor. simpl. intros H.
  apply Z.quot_div_nonneg; lia.
Qed.



Lemma timedelta_str_clock (n : Z) :
  (0 <= n < 86400)%Z ->
  Py.timedelta_str n =
  Py.str_int (n / 3600) +:+ ":" +:+ Py.two_digits ((n / 60) mod 60) +:+ ":"
  +:+ Py.two_digits (n mod 60).
Proof.
  intros H. unfold Py.timedelta_str.
  rewrite (Z.div_small n 86400), (Z.mod_small n 86400) by lia.
  simpl Z.eqb. cbv iota. rewrite Z.div_div by lia. reflexivity.
Qed.





Lemma ne_opt_false (speaker : string) (current : option string) :
  Py.ne_opt speaker current = false -> current = Some speaker.
Proof.
  destruct current as [c|]; simpl; [|discriminate].
  intros H. apply negb_false_iff, String.eqb_eq in H. now subst.
Qed.







Example transcript_of_spoken :
  headers (save_readable_transcript spoken)
  = [("0:00:00", "Speaker_00"); ("1:01:01", "Speaker_01");
     ("1 day, 1:01:01", "Speaker_00")] /\
  length (group_runs spoken) = 3%nat.
Proof. split; vm_compute; reflexivity. Qed.

Example transcript_text :
  file_text (save_readable_transcript
               [mkUtterance 0 3 3 "Speaker_00" "hello" (Py.VNum 0);
                mkUtterance 3 6 3 "Speaker_00" "world" (Py.VNum 0)])
  = "MEETING TRANSCRIPT" +:+ Py.nl
    +:+ "==================================================" +:+ Py.nl +:+ Py.nl
    +:+ Py.nl +:+ "[0:00:00] Speaker_00:" +:+ Py.nl
    +:+ "hello" +:+ Py.nl +:+ "world" +:+ Py.nl.
Proof. vm_compute. reflexivity. Qed.

End Transcript.

(** ** The tabular record *)

Section Tabular.

Lemma series_apply_numbers (f : AlignedUtterance -> Q) (us : list AlignedUtterance) :
  series_apply format_seconds (map (fun u => Py.VNum (f u)) us)
  = Py.Ok (map (fun u => Py.VStr (timestamp_of (f u))) us).
Proof.
  induction us as [|u us IH]; [reflexivity|].
  simpl. rewrite IH. reflexivity.
Qed.

Lemma map_seq_lookup {A B} (F : nat -> B) (G : A -> B) (l : list A) :
  (forall i x, l !! i = Some x -> F i = G x) ->
  map F (seq 0 (length l)) = map G l.
Proof.
  revert F. induction l as [|x l IH]; intros F H; [reflexivity|].
  simpl. rewrite (H 0%nat x eq_refl). f_equal.
  rewrite <- seq_shift, map_map. apply IH.
  intros i y Hy. now apply (H (S i)).
Qed.

(** With at least one utterance the table has the six field columns and
    the two formatted columns, in this order, no index column, and one
    row per utterance, in order. *)
Lemma save_csv_analysis_rows (us : list AlignedUtterance) :
  us <> [] ->
  save_csv_analysis us =
  Py.Ok {| csv_header := map fst fields ++ ["start_formatted"; "end_formatted"];
           csv_rows := map csv_row us |}.
Proof.
  intros Hne. destruct us as [|u0 rest]; [congruence|].
  set (us := u0 :: rest). unfold save_csv_analysis.
  assert (Hdf : DataFrame_of_records us =
                {| df_index := seq 0 (length us);
                   df_columns := map (fun kf => (fst kf, map (snd kf) us)) fields |})
    by reflexivity.
  rewrite Hdf. clearbody us. clear Hdf Hne u0 rest.
  unfold df_getitem, df_setitem, fields. simpl.
  rewrite (series_apply_numbers au_start us). simpl.
  rewrite (series_apply_numbers au_end us). simpl.
  unfold to_csv. simpl. do 2 f_equal.
  apply map_seq_lookup. intros i u Hu.
  rewrite !list_lookup_fmap, Hu. reflexivity.
Qed.

(** C9 on the empty sequence.  With no utterance the DataFrame has no
    column, [df['start']] raises [KeyError], and no table is written. *)
Theorem save_csv_analysis_empty :
  save_csv_analysis [] = Py.Raise (Py.KeyError "start").
Proof. reflexivity. Qed.

Example csv_of_one_unknown :
  save_csv_analysis [mkUtterance 0 2 2 "Unknown" "hi" (Py.VNum 0)]
  = Py.Ok {| csv_header := ["start"; "end"; "duration"; "speaker"; "text";
                            "confidence"; "start_formatted"; "end_formatted"];
             csv_rows := [[Py.VNum 0; Py.VNum 2; Py.VNum 2; Py.VStr "Unknown";
                           Py.VStr "hi"; Py.VNum 0; Py.VStr "0:00:00";
                           Py.VStr "0:00:02"]] |}.
Proof. vm_compute. reflexivity. Qed.

(** With [index=True] the table would lead with the row labels. *)
Example csv_index_column :
  csv_header (to_csv (DataFrame_of_records spoken) true)
  = [EmptyString; "start"; "end"; "duration"; "speaker"; "text"; "confidence"].
Proof. reflexivity. Qed.

End Tabular.

(** ** The structured record *)

Ltac bind_step := cbv beta iota delta [mbind option_bind].

Section JsonRoundTrip.
Import Json.
Local Arguments String.append : simpl nomatch.

Lemma append_assoc (a b c : string) : (a +:+ b) +:+ c = a +:+ b +:+ c.
Proof. induction a as [|x a IH]; simpl; [reflexivity | now rewrite IH]. Qed.

Lemma parse_chars_escape_char (c : ascii) (rest : string) :
  parse_chars (escape_char c +:+ rest) =
  '(t, r) ← parse_chars rest; Some (String c t, r).
Proof.
  destruct c as [[] [] [] [] [] [] [] []]; reflexivity.
Qed.

Lemma parse_chars_escape (s rest : string) :
  parse_chars (escape s +:+ String quote rest) = Some (s, rest).
Proof.
  induction s as [|c s IH]; [reflexivity|].
  simpl escape. rewrite append_assoc, parse_chars_escape_char, IH. reflexivity.
Qed.

Lemma length_append (a b : string) :
  String.length (a +:+ b) = (String.length a + String.length b)%nat.
Proof. induction a as [|x a IH]; simpl; [reflexivity | now rewrite IH]. Qed.

Lemma number_char_not_quote (c : ascii) :
  is_number_char c = true -> Ascii.eqb c quote = false.
Proof. destruct c as [[] [] [] [] [] [] [] []]; vm_compute; congruence. Qed.

Lemma number_char_not_ws (c : ascii) :
  is_number_char c = true -> is_ws c = false.
Proof. destruct c as [[] [] [] [] [] [] [] []]; vm_compute; congruence. Qed.

Lemma span_number_app (tok rest : string) :
  all_number_chars tok = true -> starts_number rest = false ->
  span_number (tok +:+ rest) = (tok, rest).
Proof.
  intros Htok Hrest. induction tok as [|c tok IH]; simpl.
  - destruct rest as [|c rest]; [reflexivity|]. simpl in *. now rewrite Hrest.
  - simpl in Htok. apply andb_true_iff in Htok as [Hc Htok].
    now rewrite Hc, IH.
Qed.

Section WithNumbers.
Variable float_repr : Q -> string.
Variable float_parse : string -> option Q.


Lemma encode_string_app (s rest : string) :
  encode_string s +:+ rest = String quote (escape s +:+ String quote rest).
Proof. unfold encode_string. simpl. now rewrite append_assoc. Qed.

Lemma parse_value_round_trip (v : Py.value) (rest : string) :
  reads_back float_repr float_parse v -> starts_number rest = false ->
  parse_value float_parse (encode_value float_repr v +:+ rest) = Some (v, rest).
Proof.
  intros Hv Hrest. destruct v as [q|s]; simpl encode_value.
  - destruct Hv as (Hne & Hall & Hparse).
    destruct (float_repr q) as [|c tok] eqn:E; [congruence|].
    pose proof Hall as Hall'. simpl in Hall'.
    apply andb_true_iff in Hall' as [Hc _].
    unfold parse_value. simpl String.append. cbv beta iota.
    rewrite (number_char_not_quote c Hc).
    change (String c (tok +:+ rest)) with (String c tok +:+ rest).
    rewrite (span_number_app _ _ Hall Hrest), Hparse. reflexivity.
  - rewrite encode_string_app. unfold parse_value.
    rewrite Ascii.eqb_refl, parse_chars_escape. reflexivity.
Qed.

Lemma skip_ws_spaces (n : nat) (rest : string) :
  skip_ws (Py.repeat_str "  " n +:+ rest) = skip_ws rest.
Proof. induction n as [|n IH]; simpl; [reflexivity | exact IH]. Qed.

Lemma skip_ws_newline_indent (level : nat) (rest : string) :
  skip_ws (newline_indent level +:+ rest) = skip_ws rest.
Proof.
  unfold newline_indent. rewrite append_assoc. simpl. apply skip_ws_spaces.
Qed.

Lemma skip_ws_value (v : Py.value) (rest : string) :
  reads_back float_repr float_parse v ->
  skip_ws (encode_value float_repr v +:+ rest) = encode_value float_repr v +:+ rest.
Proof.
  intros Hv. destruct v as [q|s]; simpl encode_value.
  - destruct Hv as (Hne & Hall & _).
    destruct (float_repr q) as [|c tok]; [congruence|].
    simpl in Hall. apply andb_true_iff in Hall as [Hc _].
    simpl. now rewrite (number_char_not_ws c Hc).
  - now rewrite encode_string_app.
Qed.

Lemma encode_member_app (kv : string * Py.value) (rest : string) :
  encode_member float_repr kv +:+ rest =
  String quote (escape (fst kv) +:+
    String quote (":" +:+ " " +:+ encode_value float_repr (snd kv) +:+ rest)).
Proof.
  unfold encode_member. rewrite append_assoc, encode_string_app.
  now rewrite append_assoc.
Qed.

Lemma parse_member_round_trip (s : string) (kv : string * Py.value) (rest : string) :
  skip_ws s = encode_member float_repr kv +:+ rest ->
  reads_back float_repr float_parse (snd kv) -> starts_number rest = false ->
  parse_member float_parse s = Some (kv, rest).
Proof.
  intros Hs Hv Hrest. unfold parse_member.
  rewrite Hs, encode_member_app. simpl expect. rewrite ?Ascii.eqb_refl. simpl.
  rewrite parse_chars_escape. simpl.
  rewrite (skip_ws_value _ _ Hv), (parse_value_round_trip _ _ Hv Hrest).
  simpl. now destruct kv.
Qed.


Local Arguments newline_indent : simpl never.
Local Arguments encode_member : simpl never.
Local Arguments encode_dict : simpl never.
Local Arguments join : simpl never.

Lemma skip_ws_member (kv : string * Py.value) (rest : string) :
  skip_ws (encode_member float_repr kv +:+ rest)
  = encode_member float_repr kv +:+ rest.
Proof. now rewrite encode_member_app. Qed.

Lemma join_cons2 (sep x y : string) (l : list string) :
  join sep (x :: y :: l) = x +:+ sep +:+ join sep (y :: l).
Proof. reflexivity. Qed.

Lemma append_char (c : ascii) (s : string) :
  String c EmptyString +:+ s = String c s.
Proof. reflexivity. Qed.

Lemma skip_ws_char (c : ascii) (s : string) :
  is_ws c = false -> skip_ws (String c s) = String c s.
Proof. intros H. simpl. now rewrite H. Qed.

Lemma parse_members_round_trip (d : list (string * Py.value)) :
  forall fuel s l1 l2 rest,
    d <> [] -> (length d <= fuel)%nat ->
    Forall (fun kv => reads_back float_repr float_parse (snd kv)) d ->
    skip_ws s =
      join ("," +:+ newline_indent l1) (map (encode_member float_repr) d)
      +:+ newline_indent l2 +:+ "}" +:+ rest ->
    parse_members float_parse fuel s = Some (d, rest).
Proof.
  induction d as [|kv d IH]; intros fuel s l1 l2 rest Hne Hfuel Hall Hs;
    [congruence|].
  destruct fuel as [|fuel]; [simpl in Hfuel; lia|].
  apply Forall_cons in Hall as [Hkv Hall].
  destruct d as [|kv2 d].
  - change (join _ _) with (encode_member float_repr kv) in Hs.
    simpl parse_members.
    rewrite (parse_member_round_trip s kv _ Hs Hkv) by reflexivity.
    bind_step. rewrite skip_ws_newline_indent, append_char.
    rewrite skip_ws_char by reflexivity. reflexivity.
  - rewrite map_cons, map_cons, join_cons2, <- map_cons in Hs.
    rewrite !append_assoc, append_char in Hs. simpl parse_members.
    rewrite (parse_member_round_trip s kv _ Hs Hkv) by reflexivity.
    bind_step. rewrite skip_ws_char by reflexivity.
    cbv beta iota. change (Ascii.eqb "," ",") with true. cbv beta iota.
    rewrite (IH fuel _ l1 l2 rest); [reflexivity | discriminate | simpl in *; lia | assumption |].
    rewrite skip_ws_newline_indent.
    rewrite map_cons. destruct d as [|kv3 d].
    + apply skip_ws_member.
    + rewrite map_cons, join_cons2, !append_assoc. apply skip_ws_member.
Qed.

Lemma encode_dict_app (level : nat) (d : list (string * Py.value)) (rest : string) :
  d <> [] ->
  encode_dict float_repr level d +:+ rest =
  String "{" (newline_indent (S level) +:+
    join ("," +:+ newline_indent (S level)) (map (encode_member float_repr) d)
    +:+ newline_indent level +:+ "}" +:+ rest).
Proof.
  intros Hne. destruct d as [|kv d]; [congruence|].
  unfold encode_dict. now rewrite !append_assoc.
Qed.

Lemma skip_ws_members (sep : string) (d : list (string * Py.value)) (rest : string) :
  d <> [] ->
  skip_ws (join sep (map (encode_member float_repr) d) +:+ rest)
  = join sep (map (encode_member float_repr) d) +:+ rest.
Proof.
  intros Hne. destruct d as [|kv [|kv2 d]]; [congruence | apply skip_ws_member |].
  rewrite map_cons, map_cons, join_cons2, !append_assoc. apply skip_ws_member.
Qed.

Lemma expect_member (c : ascii) (sep : string) (d : list (string * Py.value)) (rest : string) :
  d <> [] -> Ascii.eqb quote c = false ->
  expect c (join sep (map (encode_member float_repr) d) +:+ rest) = None.
Proof.
  intros Hne Hc. destruct d as [|kv [|kv2 d]]; [congruence | |].
  - change (join _ _) with (encode_member float_repr kv).
    rewrite encode_member_app. unfold expect. now rewrite Hc.
  - rewrite map_cons, map_cons, join_cons2, !append_assoc, encode_member_app.
    unfold expect. now rewrite Hc.
Qed.

Lemma expect_char (c : ascii) (s : string) : expect c (String c s) = Some s.
Proof. unfold expect. now rewrite Ascii.eqb_refl. Qed.

Lemma parse_object_round_trip (d : list (string * Py.value)) :
  forall fuel s level rest,
    d <> [] -> (length d <= fuel)%nat ->
    Forall (fun kv => reads_back float_repr float_parse (snd kv)) d ->
    skip_ws s = encode_dict float_repr level d +:+ rest ->
    parse_object float_parse fuel s = Some (d, rest).
Proof.
  intros fuel s level rest Hne Hfuel Hall Hs. unfold parse_object.
  rewrite Hs, (encode_dict_app _ _ _ Hne).
  rewrite expect_char. bind_step.
  rewrite skip_ws_newline_indent, (skip_ws_members _ _ _ Hne).
  rewrite (expect_member _ _ _ _ Hne) by reflexivity.
  apply (parse_members_round_trip d fuel _ (S level) level rest); auto.
  now rewrite skip_ws_newline_indent, (skip_ws_members _ _ _ Hne).
Qed.


Lemma skip_ws_dict (level : nat) (d : list (string * Py.value)) (rest : string) :
  d <> [] ->
  skip_ws (encode_dict float_repr level d +:+ rest)
  = encode_dict float_repr level d +:+ rest.
Proof. intros Hne. now rewrite (encode_dict_app _ _ _ Hne). Qed.

Lemma expect_dict (c : ascii) (level : nat) (d : list (string * Py.value)) (rest : string) :
  d <> [] -> Ascii.eqb "{" c = false ->
  expect c (encode_dict float_repr level d +:+ rest) = None.
Proof.
  intros Hne Hc. rewrite (encode_dict_app _ _ _ Hne). unfold expect. now rewrite Hc.
Qed.

Lemma parse_objects_round_trip (l : list (list (string * Py.value))) :
  forall member_fuel fuel s l1 l2 rest,
    l <> [] -> (length l <= fuel)%nat ->
    Forall (fun d => d <> [] /\ (length d <= member_fuel)%nat /\
                     Forall (fun kv => reads_back float_repr float_parse (snd kv)) d) l ->
    skip_ws s =
      join ("," +:+ newline_indent l1) (map (encode_dict float_repr l1) l)
      +:+ newline_indent l2 +:+ "]" +:+ rest ->
    parse_objects float_parse member_fuel fuel s = Some (l, rest).
Proof.
  induction l as [|d l IH]; intros mf fuel s l1 l2 rest Hne Hfuel Hall Hs;
    [congruence|].
  destruct fuel as [|fuel]; [simpl in Hfuel; lia|].
  apply Forall_cons in Hall as [(Hd & Hmf & Hkv) Hall].
  destruct l as [|d2 l].
  - change (join _ _) with (encode_dict float_repr l1 d) in Hs.
    simpl parse_objects.
    rewrite (parse_object_round_trip d mf s l1 _ Hd Hmf Hkv Hs).
    bind_step. rewrite skip_ws_newline_indent, append_char.
    rewrite skip_ws_char by reflexivity. reflexivity.
  - rewrite map_cons, map_cons, join_cons2, <- map_cons in Hs.
    rewrite !append_assoc, append_char in Hs. simpl parse_objects.
    rewrite (parse_object_round_trip d mf s l1 _ Hd Hmf Hkv Hs).
    bind_step. rewrite skip_ws_char by reflexivity.
    cbv beta iota. change (Ascii.eqb "," ",") with true. cbv beta iota.
    rewrite (IH mf fuel _ l1 l2 rest); [reflexivity | discriminate | simpl in *; lia | assumption |].
    rewrite skip_ws_newline_indent.
    apply Forall_cons in Hall as [(Hd2 & _) _].
    rewrite map_cons. destruct l as [|d3 l].
    + now apply skip_ws_dict.
    + rewrite map_cons, join_cons2, !append_assoc. now apply skip_ws_dict.
Qed.

Lemma append_nil_r (s : string) : s +:+ EmptyString = s.
Proof. induction s as [|c s IH]; simpl; [reflexivity | now rewrite IH]. Qed.

Lemma join_length_ge {A} (sep : string) (f : A -> string) (l : list A) :
  Forall (fun x => (1 <= String.length (f x))%nat) l ->
  (length l <= String.length (join sep (map f l)))%nat.
Proof.
  induction 1 as [|x l Hx Hl IH]; [simpl; lia|].
  destruct l as [|y l]; [change (join sep (map f [x])) with (f x); simpl; lia|].
  rewrite map_cons, map_cons, join_cons2, !length_append, <- map_cons.
  simpl length in *. lia.
Qed.

Lemma join_length_elem {A} (sep : string) (f : A -> string) (l : list A) (x : A) :
  In x l -> (String.length (f x) <= String.length (join sep (map f l)))%nat.
Proof.
  induction l as [|y l IH]; [intros []|].
  destruct l as [|z l].
  - intros [->|[]]. change (join sep (map f [x])) with (f x). lia.
  - rewrite map_cons, map_cons, join_cons2, !length_append, <- map_cons.
    intros [->|Hin]; [lia|]. specialize (IH Hin). lia.
Qed.

Lemma encode_member_length (kv : string * Py.value) :
  (1 <= String.length (encode_member float_repr kv))%nat.
Proof.
  pose proof (encode_member_app kv EmptyString) as H.
  rewrite append_nil_r in H. rewrite H. simpl. lia.
Qed.

Lemma encode_dict_length (level : nat) (d : list (string * Py.value)) :
  (length d <= String.length (encode_dict float_repr level d))%nat.
Proof.
  destruct d as [|kv d]; [simpl; lia|].
  unfold encode_dict. rewrite !length_append.
  pose proof (join_length_ge ("," +:+ newline_indent (S level))
                (encode_member float_repr) (kv :: d)) as H.
  specialize (H ltac:(apply Forall_forall; intros; apply encode_member_length)).
  lia.
Qed.

Lemma loads_dump (l : list (list (string * Py.value))) :
  Forall (fun d => d <> [] /\ Forall (fun kv => reads_back float_repr float_parse (snd kv)) d) l ->
  loads float_parse (dump float_repr l) = Some l.
Proof.
  intros Hall. destruct l as [|d0 l0] eqn:El; [reflexivity|].
  rewrite <- El in *. assert (Hne : l <> []) by (subst; discriminate).
  clear El d0 l0.
  unfold loads, dump.
  set (text := encode_list float_repr 0 l).
  assert (Htext : text =
    String "[" (newline_indent 1 +:+
      join ("," +:+ newline_indent 1) (map (encode_dict float_repr 1) l)
      +:+ newline_indent 0 +:+ "]" +:+ EmptyString)).
  { subst text. destruct l; [congruence|]. unfold encode_list.
    now rewrite append_nil_r. }
  assert (Hjoin : (String.length (join ("," +:+ newline_indent 1)
                     (map (encode_dict float_repr 1) l)) <= String.length text)%nat).
  { rewrite Htext. simpl String.length. rewrite !length_append. lia. }
  assert (Hfuel : (length l <= String.length text)%nat).
  { etransitivity; [|exact Hjoin]. apply join_length_ge.
    eapply Forall_impl; [exact Hall|]. simpl. intros d [Hd _].
    pose proof (encode_dict_length 1 d). destruct d; [congruence|]. simpl in *. lia. }
  assert (Hmf : Forall (fun d => d <> [] /\ (length d <= String.length text)%nat /\
                          Forall (fun kv => reads_back float_repr float_parse (snd kv)) d) l).
  { apply Forall_forall. intros d Hin.
    rewrite Forall_forall in Hall. destruct (Hall d Hin) as [Hd Hkv].
    split; [assumption|]. split; [|assumption].
    etransitivity; [apply (encode_dict_length 1)|].
    etransitivity; [|exact Hjoin].
    apply (join_length_elem _ (encode_dict float_repr 1)). now apply list_elem_of_In. }
  clearbody text. remember (String.length text) as fuel eqn:Efuel.
  clear Efuel Hjoin. subst text. unfold parse_array.
  rewrite skip_ws_char by reflexivity. rewrite expect_char. bind_step.
  rewrite skip_ws_newline_indent.
  assert (Hfirst : exists d l', l = d :: l' /\ d <> []).
  { destruct l as [|d l']; [congruence|]. apply Forall_cons in Hall as [[Hd _] _]. eauto. }
  destruct Hfirst as (d & l' & -> & Hd).
  assert (Hskip : forall X,
    skip_ws (join ("," +:+ newline_indent 1)
               (map (encode_dict float_repr 1) (d :: l')) +:+ X)
    = join ("," +:+ newline_indent 1)
        (map (encode_dict float_repr 1) (d :: l')) +:+ X).
  { intros X. rewrite map_cons. destruct l' as [|d2 l'].
    - now apply skip_ws_dict.
    - rewrite map_cons, join_cons2, !append_assoc. now apply skip_ws_dict. }
  assert (Hexp : forall X,
    expect "]" (join ("," +:+ newline_indent 1)
               (map (encode_dict float_repr 1) (d :: l')) +:+ X) = None).
  { intros X. rewrite map_cons. destruct l' as [|d2 l'].
    - now apply expect_dict.
    - rewrite map_cons, join_cons2, !append_assoc. now apply expect_dict. }
  rewrite Hskip, Hexp.
  rewrite (parse_objects_round_trip (d :: l') _ _ _ 1 0 EmptyString Hne Hfuel Hmf).
  - reflexivity.
  - now rewrite skip_ws_newline_indent, Hskip.
Qed.


End WithNumbers.


Lemma items_nonempty (u : AlignedUtterance) : items u <> [].
Proof. discriminate. Qed.

End JsonRoundTrip.



(* ====================================================================== *)
(** * Further properties of the code *)

(** ** The overlap resolver *)

Section Resolver.
Local Open Scope Q_scope.

Lemma normalize_label_not_unknown (raw : string) :
  normalize_label raw <> "Unknown".
Proof. unfold normalize_label. discriminate. Qed.

Lemma overlaps_lt (s e : Q) (t : Turn) : overlaps s e t = true <-> 0 < overlap s e t.
Proof. apply ltb_lt. Qed.

(** X1.  The sentinel is returned only when nothing overlaps: the label is
    ["Unknown"] exactly when no turn overlaps the span by a strictly
    positive amount; a raw speaker id, whatever it is, is never rendered
    as ["Unknown"]. *)
Theorem unknown_iff_no_overlap (s e : Q) (turns : list Turn) :
  find_dominant_speaker (Py.VNum s) (Py.VNum e) turns = Py.Ok "Unknown" <->
  (forall t, In t turns -> ~ 0 < overlap s e t).
Proof.
  rewrite find_dominant_speaker_num. split.
  - intros H t Hin Hpos. unfold dominant_label in H.
    destruct (accumulate s e turns) as [|first rest] eqn:Hd.
    + assert (Hk : In (turn_speaker t) (map fst (accumulate s e turns)))
        by (apply accumulate_keys; eauto).
      rewrite Hd in Hk. destruct Hk.
    + assert (E : normalize_label (max_by_value first rest) = "Unknown")
        by congruence.
      now apply normalize_label_not_unknown in E.
  - intros H. f_equal. now apply dominant_label_unknown.
Qed.







Lemma accumulate_turn_skip s e d t :
  overlaps s e t = false -> accumulate_turn s e d t = d.
Proof.
  intros H. unfold accumulate_turn.
  destruct (Py.ltb (Py.max s (turn_start t)) (Py.min e (turn_end t))) eqn:G;
    [|reflexivity].
  apply guard_true, overlaps_lt in G. congruence.
Qed.

Lemma fold_accumulate_filter s e turns : forall d,
  fold_left (accumulate_turn s e) (List.filter (overlaps s e) turns) d
  = fold_left (accumulate_turn s e) turns d.
Proof.
  induction turns as [|t turns IH]; intros d; [reflexivity|].
  simpl. destruct (overlaps s e t) eqn:H; simpl.
  - apply IH.
  - now rewrite (accumulate_turn_skip _ _ _ _ H).
Qed.

(** X3.  Turns that do not overlap the span are invisible: two
    diarizations that agree once the turns without strictly positive
    overlap are left out give the same accumulation and the same label. *)
Theorem non_overlapping_turns_ignored (s e : Q) (turns turns' : list Turn) :
  List.filter (overlaps s e) turns = List.filter (overlaps s e) turns' ->
  accumulate s e turns = accumulate s e turns' /\
  find_dominant_speaker (Py.VNum s) (Py.VNum e) turns
  = find_dominant_speaker (Py.VNum s) (Py.VNum e) turns'.
Proof.
  intros H.
  assert (E : accumulate s e turns = accumulate s e turns').
  { unfold accumulate.
    rewrite <- (fold_accumulate_filter s e turns), <- (fold_accumulate_filter s e turns').
    now rewrite H. }
  split; [assumption|].
  rewrite !find_dominant_speaker_num. unfold dominant_label. now rewrite E.
Qed.

Lemma non_overlapping_turns_ignored_witness :
  accumulate 0 10 [mkTurn 20 30 "SPEAKER_02"; mkTurn 0 5 "SPEAKER_01"; mkTurn 10 12 "SPEAKER_00"]
  = accumulate 0 10 [mkTurn 0 5 "SPEAKER_01"] /\
  find_dominant_speaker (Py.VNum 0) (Py.VNum 10)
    [mkTurn 20 30 "SPEAKER_02"; mkTurn 0 5 "SPEAKER_01"; mkTurn 10 12 "SPEAKER_00"]
  = find_dominant_speaker (Py.VNum 0) (Py.VNum 10) [mkTurn 0 5 "SPEAKER_01"].
Proof.
  apply (non_overlapping_turns_ignored 0 10). vm_compute. reflexivity.
Defined.

(** X4.  When all the turns that overlap the span belong to one speaker,
    that speaker is the label, however many turns there are and whatever
    the other speakers' turns look like. *)
Theorem sole_overlapping_speaker_wins (s e : Q) (turns : list Turn) (k : string) :
  (exists t, In t turns /\ turn_speaker t = k /\ 0 < overlap s e t) ->
  (forall t, In t turns -> 0 < overlap s e t -> turn_speaker t = k) ->
  find_dominant_speaker (Py.VNum s) (Py.VNum e) turns
  = Py.Ok (normalize_label k).
Proof.
  intros Hex Hall. rewrite find_dominant_speaker_num. f_equal.
  unfold dominant_label.
  destruct (accumulate s e turns) as [|first rest] eqn:Hd.
  - apply accumulate_keys in Hex. rewrite Hd in Hex. destruct Hex.
  - destruct (winner_spec s e turns first rest Hd) as (i & Hi & _).
    assert (Hw : is_Some (first_positive s e turns (max_by_value first rest)))
      by eauto.
    apply first_positive_Some in Hw as (t & Hin & Hsp & Hpos).
    now rewrite <- Hsp, (Hall t Hin Hpos).
Qed.

Lemma sole_overlapping_speaker_wins_witness :
  find_dominant_speaker (Py.VNum 1) (Py.VNum 3)
    [mkTurn 0 6 "SPEAKER_00"; mkTurn 6 9 "SPEAKER_01"]
  = Py.Ok (normalize_label "SPEAKER_00").
Proof.
  apply (sole_overlapping_speaker_wins 1 3).
  - exists (mkTurn 0 6 "SPEAKER_00").
    split; [now left|]. split; [reflexivity | vm_compute; reflexivity].
  - intros t [<-|[<-|[]]]; [reflexivity|]. vm_compute. discriminate.
Defined.




(** X6.  The geometry of one turn's overlap, as the comparisons of the
    loop body decide it: the turn counts exactly when span and turn are
    both non-empty and each starts strictly before the other ends (turns
    that merely touch the span do not count); an overlap is never longer
    than the span or than the turn; and a turn that contains the span
    overlaps it by the whole span. *)
Theorem overlap_geometry (s e : Q) (t : Turn) :
  (Py.ltb (Py.max s (turn_start t)) (Py.min e (turn_end t)) = true <->
   s < e /\ turn_start t < turn_end t /\ s < turn_end t /\ turn_start t < e) /\
  (0 < overlap s e t ->
   overlap s e t <= e - s /\ overlap s e t <= turn_end t - turn_start t) /\
  (turn_start t <= s -> e <= turn_end t -> s <= e -> overlap s e t == e - s).
Proof.
  unfold overlap. rewrite ltb_lt, py_max_Qmax, py_min_Qmin.
  destruct (Q.min_spec e (turn_end t)) as [[? ->]|[? ->]];
  destruct (Q.max_spec s (turn_start t)) as [[? ->]|[? ->]];
  match goal with |- context [Qmax 0 ?x] =>
    destruct (Q.max_spec 0 x) as [[? ->]|[? ->]] end;
  repeat split; intros; try lra.
Qed.

End Resolver.

(** ** Label normalization *)

Section LabelAlgebra.

Lemma split_nonempty (sep : ascii) (s : string) : split sep s <> [].
Proof.
  destruct (split_snoc sep s) as (toks & suffix & -> & _).
  now destruct toks.
Qed.

Lemma split_app_sep (sep : ascii) (p s : string) :
  exists toks, toks <> [] /\
    split sep (p +:+ String sep s) = toks ++ split sep s.
Proof.
  induction p as [|c p (toks & Hne & IH)].
  - exists [EmptyString]. split; [discriminate|].
    rewrite append_nil. simpl. now rewrite Ascii.eqb_refl.
  - rewrite append_cons. simpl. rewrite IH.
    destruct (Ascii.eqb c sep).
    + exists (EmptyString :: toks). split; [discriminate | reflexivity].
    + destruct toks as [|tok toks]; [congruence|].
      exists (String c tok :: toks). split; [discriminate | reflexivity].
Qed.

Lemma last_split_app_sep (sep : ascii) (p s d : string) :
  List.last (split sep (p +:+ String sep s)) d = List.last (split sep s) d.
Proof.
  destruct (split_app_sep sep p s) as (toks & _ & ->).
  destruct (split_snoc sep s) as (toks2 & suffix & -> & _).
  now rewrite app_assoc, !last_last.
Qed.

Lemma split_no_sep (sep : ascii) (s : string) :
  occurs sep s = false -> split sep s = [s].
Proof.
  induction s as [|c s IH]; [reflexivity|]. simpl.
  intros H. apply orb_false_iff in H as [Hc Hs].
  now rewrite Hc, (IH Hs).
Qed.

(** X7.  A label survives being normalized again: normalizing a label
    gives the label back.  Consequently raw ids that are already of the
    form [Speaker_N] pass through unchanged. *)
Theorem normalize_label_idempotent (raw : string) :
  normalize_label (normalize_label raw) = normalize_label raw.
Proof.
  destruct (split_snoc "_" raw) as (toks & suffix & E & Hocc & _).
  assert (H : normalize_label raw = "Speaker" +:+ String "_" suffix).
  { unfold normalize_label. now rewrite E, last_last. }
  rewrite H. unfold normalize_label at 1.
  now rewrite last_split_app_sep, (split_no_sep _ _ Hocc).
Qed.

(** X8.  What precedes the last underscore is dropped: two raw ids with
    the same text after an underscore get the same label, so the
    normalization can merge speakers the diarization tells apart. *)
Theorem normalize_label_forgets_prefix (prefix1 prefix2 rest : string) :
  normalize_label (prefix1 +:+ "_" +:+ rest)
  = normalize_label (prefix2 +:+ "_" +:+ rest).
Proof.
  unfold normalize_label.
  change ("_" +:+ rest) with (String "_" rest).
  now rewrite !last_split_app_sep.
Qed.

Example normalize_label_merges :
  normalize_label "ROOM_A_1" = normalize_label "ROOM_B_1" /\
  "ROOM_A_1" <> "ROOM_B_1".
Proof. split; [reflexivity | discriminate]. Qed.

End LabelAlgebra.

(** ** The aligner *)

Section AlignerErrors.

(** What [align_segment] does on every dict: the checks in the order the
    loop body makes them. *)
Lemma align_segment_cases (segment : gmap string Py.value) turns :
  align_segment segment turns =
  match segment !! "start", segment !! "end", segment !! "text" with
  | None, _, _ => Py.Raise (Py.KeyError "start")
  | Some _, None, _ => Py.Raise (Py.KeyError "end")
  | Some _, Some _, None => Py.Raise (Py.KeyError "text")
  | Some _, Some _, Some (Py.VNum _) => Py.Raise (Py.AttributeError "strip")
  | Some (Py.VNum s), Some (Py.VNum e), Some (Py.VStr t) =>
      Py.Ok {| au_start := s;
               au_end := e;
               au_duration := (e - s)%Q;
               au_speaker := dominant_label s e turns;
               au_text := Py.rstrip (Py.lstrip t);
               au_confidence := default (Py.VNum 0) (segment !! "avg_logprob") |}
  | Some _, Some _, Some (Py.VStr _) => Py.Raise Py.TypeError
  end.
Proof.
  unfold align_segment, Py.getitem, Py.get.
  destruct (segment !! "start") as [[s|s]|]; simpl; [| |reflexivity];
  destruct (segment !! "end") as [[e|e]|]; simpl; try reflexivity;
  destruct (segment !! "text") as [[t|t]|]; simpl; reflexivity.
Qed.

Lemma align_segment_Ok_well_formed (segment : gmap string Py.value) turns u :
  align_segment segment turns = Py.Ok u -> well_formed segment.
Proof.
  rewrite align_segment_cases. unfold well_formed.
  destruct (segment !! "start") as [[s|s]|]; [| |discriminate];
  destruct (segment !! "end") as [[e|e]|]; try discriminate;
  destruct (segment !! "text") as [[t|t]|]; try discriminate.
  intros _. exists s, e, t. auto.
Qed.

(** X9.  The aligner returns exactly on the inputs whose segments all
    carry a numeric [start], a numeric [end] and a string [text]; on every
    other input it raises. *)
Theorem align_succeeds_iff_well_formed
    (segments : list (gmap string Py.value)) (turns : list Turn) :
  (exists us, align_transcription_with_speakers segments turns = Py.Ok us) <->
  Forall well_formed segments.
Proof.
  split.
  - intros [us E]. revert us E.
    induction segments as [|segment segments IH]; intros us E; [constructor|].
    simpl in E.
    destruct (align_segment segment turns) as [u|] eqn:Eu; [|discriminate].
    destruct (align_transcription_with_speakers segments turns) as [us'|] eqn:Eus;
      [|discriminate].
    constructor; [eapply align_segment_Ok_well_formed; eauto | eapply IH; eauto].
  - intros H. destruct (align_Forall2 segments turns H) as (us & E & _). eauto.
Qed.

(** X10.  The first segment that cannot be aligned decides the outcome:
    the aligner raises that segment's exception, whatever follows it, and
    nothing is returned for the segments before it.  The exception names
    the first missing key in the order [start], [end], [text]; a text that
    is not a string is reported before a time that is not a number. *)
Theorem align_raises_first_failure
    (before after : list (gmap string Py.value))
    (segment : gmap string Py.value) (turns : list Turn) :
  Forall well_formed before ->
  ~ well_formed segment ->
  exists err,
    align_transcription_with_speakers (before ++ segment :: after) turns
    = Py.Raise err /\
    err = match segment !! "start", segment !! "end", segment !! "text" with
          | None, _, _ => Py.KeyError "start"
          | Some _, None, _ => Py.KeyError "end"
          | Some _, Some _, None => Py.KeyError "text"
          | Some _, Some _, Some (Py.VNum _) => Py.AttributeError "strip"
          | Some _, Some _, Some (Py.VStr _) => Py.TypeError
          end.
Proof.
  intros Hbefore Hbad.
  assert (Hseg : exists err, align_segment segment turns = Py.Raise err /\
    err = match segment !! "start", segment !! "end", segment !! "text" with
          | None, _, _ => Py.KeyError "start"
          | Some _, None, _ => Py.KeyError "end"
          | Some _, Some _, None => Py.KeyError "text"
          | Some _, Some _, Some (Py.VNum _) => Py.AttributeError "strip"
          | Some _, Some _, Some (Py.VStr _) => Py.TypeError
          end).
  { rewrite align_segment_cases.
    destruct (segment !! "start") as [[s|s]|] eqn:Hs;
    destruct (segment !! "end") as [[e|e]|] eqn:He;
    destruct (segment !! "text") as [[t|t]|] eqn:Ht;
    try (eexists; split; reflexivity).
    exfalso. apply Hbad. exists s, e, t. auto. }
  destruct Hseg as (err & Eseg & Herr). exists err. split; [|assumption].
  clear Herr Hbad. induction Hbefore as [|b before Hb _ IH]; simpl.
  - now rewrite Eseg.
  - destruct Hb as (s & e & t & Hs & He & Ht).
    rewrite (align_segment_ok _ turns _ _ _ Hs He Ht). simpl.
    now rewrite IH.
Qed.

Lemma align_raises_first_failure_witness :
  exists err,
    align_transcription_with_speakers
      (hello_world ++ {[ "start" := Py.VNum 6; "text" := Py.VNum 0 ]}
                   :: [ (∅ : gmap string Py.value) ]) one_turn
    = Py.Raise err /\
    err = Py.KeyError "end".
Proof.
  refine (align_raises_first_failure hello_world [∅]
            {[ "start" := Py.VNum 6; "text" := Py.VNum 0 ]} one_turn _ _).
  - repeat constructor.
    + exists 0%Q, 3%Q, " hello ". repeat split; reflexivity.
    + exists 3%Q, 6%Q, "world". repeat split; reflexivity.
  - intros (s & e & t & _ & He & _). vm_compute in He. discriminate.
Defined.

(** X11.  The aligner works segment by segment: aligning a concatenation
    is aligning the two parts, in order, and joining the results; the
    utterances of one part do not depend on the other part. *)
Theorem align_app (xs ys : list (gmap string Py.value)) (turns : list Turn) :
  align_transcription_with_speakers (xs ++ ys) turns =
  (us ← align_transcription_with_speakers xs turns;
   vs ← align_transcription_with_speakers ys turns;
   Py.Ok (us ++ vs)).
Proof.
  induction xs as [|x xs IH]; simpl.
  - now destruct (align_transcription_with_speakers ys turns).
  - destruct (align_segment x turns) as [u|]; simpl; [|reflexivity].
    rewrite IH.
    destruct (align_transcription_with_speakers xs turns) as [us|]; simpl;
      [|reflexivity].
    now destruct (align_transcription_with_speakers ys turns).
Qed.

(** X12.  Only four keys of a segment are read: setting any other key
    (Whisper segments also carry [id], [tokens], [no_speech_prob], ...)
    changes neither the utterance nor the exception. *)
Theorem align_segment_ignores_other_keys
    (segment : gmap string Py.value) (key : string) (v : Py.value)
    (turns : list Turn) :
  key <> "start" -> key <> "end" -> key <> "text" -> key <> "avg_logprob" ->
  align_segment (<[key := v]> segment) turns = align_segment segment turns.
Proof.
  intros H1 H2 H3 H4. rewrite !align_segment_cases.
  now rewrite !lookup_insert_ne by assumption.
Qed.

Lemma align_segment_ignores_other_keys_witness :
  align_segment (<["no_speech_prob" := Py.VNum (1 # 10)]> backwards_span) one_turn
  = align_segment backwards_span one_turn.
Proof.
  apply (align_segment_ignores_other_keys backwards_span); discriminate.
Defined.

(** X13.  The aligner invents no speaker and keeps the times consistent:
    every utterance it returns has [duration = end - start], and its label
    is either ["Unknown"], with no turn overlapping the utterance, or the
    normalized id of a turn that overlaps the utterance by a strictly
    positive amount. *)
Theorem aligned_labels_come_from_turns
    (segments : list (gmap string Py.value)) (turns : list Turn)
    (us : list AlignedUtterance) :
  align_transcription_with_speakers segments turns = Py.Ok us ->
  Forall (fun u =>
    au_duration u = (au_end u - au_start u)%Q /\
    ((au_speaker u = "Unknown" /\
      forall t, In t turns -> ~ (0 < overlap (au_start u) (au_end u) t)%Q)
     \/
     (exists t, In t turns /\
        (0 < overlap (au_start u) (au_end u) t)%Q /\
        au_speaker u = normalize_label (turn_speaker t)))) us.
Proof.
  revert us. induction segments as [|segment segments IH]; intros us E; simpl in E.
  - injection E as <-. constructor.
  - destruct (align_segment segment turns) as [u|] eqn:Eu; [|discriminate].
    destruct (align_transcription_with_speakers segments turns) as [us'|];
      [|discriminate].
    simpl in E. injection E as <-. constructor; [|now apply IH].
    destruct (align_segment_Ok_well_formed _ _ _ Eu) as (s & e & t & Hs & He & Ht).
    rewrite (align_segment_ok _ turns _ _ _ Hs He Ht) in Eu.
    injection Eu as <-. simpl. split; [reflexivity|].
    unfold dominant_label.
    destruct (accumulate s e turns) as [|first rest] eqn:Hd.
    + left. split; [reflexivity|]. intros t' Hin Hpos.
      assert (Hk : In (turn_speaker t') (map fst (accumulate s e turns)))
        by (apply accumulate_keys; eauto).
      rewrite Hd in Hk. destruct Hk.
    + right. destruct (winner_spec s e turns first rest Hd) as (i & Hi & _).
      assert (Hw : is_Some (first_positive s e turns (max_by_value first rest)))
        by eauto.
      apply first_positive_Some in Hw as (t' & Hin & Hsp & Hpos).
      exists t'. rewrite Hsp. auto.
Qed.

Lemma aligned_labels_come_from_turns_witness :
  Forall (fun u =>
    au_duration u = (au_end u - au_start u)%Q /\
    ((au_speaker u = "Unknown" /\
      forall t, In t one_turn -> ~ (0 < overlap (au_start u) (au_end u) t)%Q)
     \/
     (exists t, In t one_turn /\
        (0 < overlap (au_start u) (au_end u) t)%Q /\
        au_speaker u = normalize_label (turn_speaker t))))
    [ mkUtterance 0 3 (3 - 0) "Speaker_00" "hello" (Py.VNum 0);
      mkUtterance 3 6 (6 - 3) "Speaker_00" "world" (Py.VNum (-1 # 4)) ].
Proof.
  apply (aligned_labels_come_from_turns hello_world one_turn).
  reflexivity.
Defined.

End AlignerErrors.

(** ** The readable transcript *)

Section TranscriptMore.

Lemma lines_Header timestamp speaker ws :
  lines (Header timestamp speaker :: ws) = lines ws.
Proof. reflexivity. Qed.

Lemma lines_Line text ws : lines (Line text :: ws) = text :: lines ws.
Proof. reflexivity. Qed.

Lemma lines_loop (us : list AlignedUtterance) : forall current,
  lines (transcript_loop current us) = map au_text us.
Proof.
  induction us as [|u us IH]; intros current; [reflexivity|].
  simpl transcript_loop. destruct (Py.ne_opt (au_speaker u) current).
  - now rewrite lines_Header, lines_Line, IH.
  - now rewrite lines_Line, IH.
Qed.

(** X14.  The transcript drops, repeats and reorders nothing: the text
    lines written are the texts of the utterances, one per utterance, in
    their order, whatever the speakers are. *)
Theorem transcript_keeps_every_text (us : list AlignedUtterance) :
  lines (save_readable_transcript us) = map au_text us.
Proof. unfold save_readable_transcript. apply lines_loop. Qed.

Lemma speaker_after_last (current : option string) (us : list AlignedUtterance) :
  speaker_after current us =
  match last us with
  | Some u => Some (au_speaker u)
  | None => current
  end.
Proof.
  revert current. induction us as [|u us IH]; intros current; [reflexivity|].
  simpl. rewrite IH. destruct us as [|v us]; [reflexivity|].
  rewrite last_cons_cons.
  destruct (last (v :: us)) eqn:E; [reflexivity|].
  apply last_None in E. discriminate.
Qed.

(** X15.  The loop of the transcript composes: walking a concatenation is
    walking the first part and then the second part from the speaker the
    first part ended with (the speaker of its last utterance), so the
    second part's leading header is left out exactly when that speaker
    continues. *)
Theorem transcript_loop_app (current : option string)
    (us vs : list AlignedUtterance) :
  transcript_loop current (us ++ vs) =
  transcript_loop current us ++ transcript_loop (speaker_after current us) vs /\
  speaker_after current us =
  match last us with
  | Some u => Some (au_speaker u)
  | None => current
  end.
Proof.
  split; [|apply speaker_after_last].
  revert current. induction us as [|u us IH]; intros current; [reflexivity|].
  simpl.
  destruct (Py.ne_opt (au_speaker u) current) eqn:Hne.
  - now rewrite IH.
  - apply ne_opt_false in Hne. subst current. now rewrite IH.
Qed.

Lemma two_digits_width_nat (n : nat) :
  (n < 100)%nat -> String.length (Py.two_digits (Z.of_nat n)) = 2%nat.
Proof.
  intros H.
  assert (E : forallb (fun n => Nat.eqb (String.length (Py.two_digits (Z.of_nat n))) 2)
                      (seq 0 100) = true) by (vm_compute; reflexivity).
  rewrite forallb_forall in E. apply Nat.eqb_eq, E, in_seq. lia.
Qed.

Lemma two_digits_width (n : Z) :
  (0 <= n < 100)%Z -> String.length (Py.two_digits n) = 2%nat.
Proof.
  intros H. rewrite <- (Z2Nat.id n) by lia. apply two_digits_width_nat. lia.
Qed.

(** X16.  The shape of a timestamp.  For a start within the first day it
    is [H:MM:SS]: the hours, below 24 and not padded, then minutes and
    seconds of the start truncated to whole seconds, two characters each.
    From 24 hours on (and for negative starts) the number of days comes
    first, as ["D day, "] or ["D days, "], before the clock of the
    remaining seconds. *)
Theorem timestamp_shape (x : Q) :
  ((0 <= x)%Q -> (x < 86400)%Q ->
   let n := Qfloor x in
   timestamp_of x =
     Py.str_int (n / 3600) +:+ ":" +:+ Py.two_digits ((n / 60) mod 60)
     +:+ ":" +:+ Py.two_digits (n mod 60) /\
   (0 <= n / 3600 < 24)%Z /\
   String.length (Py.two_digits ((n / 60) mod 60)) = 2%nat /\
   String.length (Py.two_digits (n mod 60)) = 2%nat) /\
  (let d := (Py.int x / 86400)%Z in
   d <> 0%Z ->
   timestamp_of x =
     Py.str_int d +:+ " day" +:+ (if (Z.abs d =? 1)%Z then EmptyString else "s")
     +:+ ", " +:+ Py.timedelta_str (Py.int x mod 86400)).
Proof.
  split.
  - intros H0 H1 n. unfold timestamp_of. rewrite (int_floor x H0). fold n.
    assert (Hn : (0 <= n < 86400)%Z).
    { subst n. split.
      - change 0%Z with (Qfloor 0). now apply Qfloor_resp_le.
      - apply Z.lt_nge. intros Hge.
        apply (Qlt_not_le x 86400 H1).
        apply Qle_trans with (inject_Z (Qfloor x)); [|apply Qfloor_le].
        change 86400%Q with (inject_Z 86400). now rewrite <- Zle_Qle. }
    split; [now apply timedelta_str_clock|]. split.
    + split; [apply Z.div_pos; lia | apply Z.div_lt_upper_bound; lia].
    + split; apply two_digits_width.
      * pose proof (Z.mod_pos_bound (n / 60) 60). lia.
      * pose proof (Z.mod_pos_bound n 60). lia.
  - intros d Hd. unfold timestamp_of, Py.timedelta_str. fold d.
    apply Z.eqb_neq in Hd. rewrite Hd.
    rewrite Z.mod_mod by lia.
    rewrite (Z.div_small (Py.int x mod 86400) 86400)
      by (apply Z.mod_pos_bound; lia).
    reflexivity.
Qed.

Example timestamps :
  timestamp_of (7 # 2) = "0:00:03" /\
  timestamp_of 3725 = "1:02:05" /\
  timestamp_of 86400 = "1 day, 0:00:00" /\
  timestamp_of 200000 = "2 days, 7:33:20".
Proof. repeat split; vm_compute; reflexivity. Qed.

End TranscriptMore.

(** ** The structured and the tabular record *)

Section RecordsMore.

Lemma no_control_app (a b : string) :
  no_control (a +:+ b) = no_control a && no_control b.
Proof.
  induction a as [|c a IH]; [reflexivity|].
  rewrite append_cons. simpl. rewrite IH. now rewrite andb_assoc.
Qed.

Lemma no_control_escape_char (c : ascii) :
  no_control (Json.escape_char c) = true.
Proof. destruct c as [[] [] [] [] [] [] [] []]; reflexivity. Qed.

(** X17.  A string literal of the structured record is free of control
    characters, whatever the text holds: line breaks, tabs and the other
    characters below 32 are written as escapes, so a text cannot break the
    line structure of the file. *)
Theorem encode_string_no_control (s : string) :
  no_control (Json.encode_string s) = true.
Proof.
  unfold Json.encode_string.
  change (String Json.quote (Json.escape s +:+ String Json.quote EmptyString))
    with (String Json.quote EmptyString +:+ Json.escape s
          +:+ String Json.quote EmptyString).
  rewrite !no_control_app. simpl. rewrite andb_true_r.
  induction s as [|c s IH]; [reflexivity|].
  simpl Json.escape. now rewrite no_control_app, no_control_escape_char, IH.
Qed.




End RecordsMore.

(** ** The orchestrator *)

Section Outputs.


(** How the call ends, and that the CSV is the only file at stake. *)
Lemma save_all_outputs_spec (float_repr : Q -> string) (base_dir : list string)
    (segments : list AlignedUtterance) (output_name : string) :
  match segments with
  | [] =>
      length (fst (save_all_outputs float_repr base_dir segments output_name)) = 2%nat
      /\ snd (save_all_outputs float_repr base_dir segments output_name)
         = Py.Raise (Py.KeyError "start")
  | _ :: _ =>
      length (fst (save_all_outputs float_repr base_dir segments output_name)) = 3%nat
      /\ snd (save_all_outputs float_repr base_dir segments output_name) = Py.Ok tt
  end.
Proof.
  unfold save_all_outputs. destruct segments as [|u us]; [split; reflexivity|].
  rewrite (save_csv_analysis_rows (u :: us)) by discriminate. split; reflexivity.
Qed.

End Outputs.

Section Transcribe.

Lemma transcribe_with_speakers_unfold E float_repr base_dir audio_path output_name :
  transcribe_with_speakers E float_repr base_dir audio_path output_name =
  let conv := convert_audio_if_needed E audio_path in
  let body := transcribe_body E float_repr base_dir audio_path (snd conv) output_name in
  (fst conv ++ fst body ++ cleanup E audio_path (snd conv), snd body).
Proof.
  unfold transcribe_with_speakers.
  destruct (convert_audio_if_needed E audio_path) as [converted processed].
  simpl. now destruct (transcribe_body _ _ _ _ _ _).
Qed.

Lemma transcribe_body_writes E float_repr base_dir audio_path processed output_name :
  Forall (fun ev => exists path a, ev = Write path a)
         (fst (transcribe_body E float_repr base_dir audio_path processed output_name)).
Proof.
  unfold transcribe_body.
  destruct (diarize E processed) as [d|]; [|constructor].
  destruct (whisper E processed) as [ws|]; [|constructor].
  destruct (align_transcription_with_speakers ws d) as [segs|]; [|constructor].
  destruct (save_all_outputs _ _ _ _) as [written r]. simpl.
  apply Forall_forall. intros ev Hin.
  apply list_elem_of_In, in_map_iff in Hin as ([path a] & <- & _). eauto.
Qed.

(** X21.  A temporary file does not outlive the call.  When the input is
    not a WAV file and the conversion works, the call starts by writing
    the temporary WAV and, provided that file is there and can be
    removed, ends by removing it: on success and on every failure of the
    engines, the aligner or the writers alike.  In between it only writes
    output files, and its outcome is that of the [try] block. *)
Theorem temp_file_removed_on_every_path
    (E : Engines) (float_repr : Q -> string) (base_dir : list string)
    (audio_path : string) (output_name : option string) :
  let temp_wav := sibling E audio_path (stem E audio_path +:+ "_temp.wav") in
  let body := transcribe_body E float_repr base_dir audio_path temp_wav output_name in
  str_lower (suffix E audio_path) <> ".wav" ->
  convert_ok E (str_path E audio_path) temp_wav = true ->
  temp_wav <> audio_path ->
  path_exists E temp_wav = true ->
  remove_ok E temp_wav = true ->
  transcribe_with_speakers E float_repr base_dir audio_path output_name
  = (Convert (str_path E audio_path) temp_wav :: fst body ++ [Remove temp_wav],
     snd body) /\
  Forall (fun ev => exists path a, ev = Write path a) (fst body).
Proof.
  intros temp_wav body Hsuffix Hconv Hne Hex Hrm.
  split; [|apply transcribe_body_writes].
  rewrite transcribe_with_speakers_unfold. unfold convert_audio_if_needed.
  apply String.eqb_neq in Hsuffix. rewrite Hsuffix. fold temp_wav.
  rewrite Hconv. simpl. unfold cleanup.
  apply String.eqb_neq in Hne. rewrite Hne, Hex, Hrm. reflexivity.
Qed.

Lemma temp_file_removed_on_every_path_witness :
  transcribe_with_speakers sample_engines int_repr ["out"] "talk.mp3" None
  = (Convert "talk.mp3" "meeting_temp.wav"
       :: fst (transcribe_body sample_engines int_repr ["out"] "talk.mp3"
                               "meeting_temp.wav" None)
       ++ [Remove "meeting_temp.wav"],
     snd (transcribe_body sample_engines int_repr ["out"] "talk.mp3"
                          "meeting_temp.wav" None)) /\
  Forall (fun ev => exists path a, ev = Write path a)
    (fst (transcribe_body sample_engines int_repr ["out"] "talk.mp3"
                          "meeting_temp.wav" None)).
Proof.
  refine (temp_file_removed_on_every_path sample_engines int_repr ["out"]
            "talk.mp3" None _ _ _ _ _);
    first [reflexivity | discriminate].
Defined.

(** X22.  The removal in the [finally] block is decided by comparing two
    strings, not by whether a temporary file was made.  When no
    conversion took place (the input is a WAV file, or the conversion
    failed), the processed path is [str(Path(audio_path))]: no temporary
    file is written, and that path (the input itself) is removed exactly
    when it differs as a string from the path passed in, exists and can
    be removed.  Nothing else is ever removed. *)
Theorem input_removed_unless_path_is_normal
    (E : Engines) (float_repr : Q -> string) (base_dir : list string)
    (audio_path : string) (output_name : option string) :
  let temp_wav := sibling E audio_path (stem E audio_path +:+ "_temp.wav") in
  let events :=
    fst (transcribe_with_speakers E float_repr base_dir audio_path output_name) in
  str_lower (suffix E audio_path) = ".wav" \/
  convert_ok E (str_path E audio_path) temp_wav = false ->
  (forall src dst, ~ In (Convert src dst) events) /\
  (forall p, In (Remove p) events <->
     p = str_path E audio_path /\ str_path E audio_path <> audio_path /\
     path_exists E p = true /\ remove_ok E p = true).
Proof.
  intros temp_wav events Hcase. subst events.
  rewrite transcribe_with_speakers_unfold.
  assert (Hconv : convert_audio_if_needed E audio_path = ([], str_path E audio_path)).
  { unfold convert_audio_if_needed. fold temp_wav.
    destruct (String.eqb (str_lower (suffix E audio_path)) ".wav") eqn:Hs;
      [reflexivity|].
    destruct Hcase as [Hw|Hc]; [apply String.eqb_eq in Hw; congruence|].
    now rewrite Hc. }
  rewrite Hconv. simpl.
  pose proof (transcribe_body_writes E float_repr base_dir audio_path
                (str_path E audio_path) output_name) as Hw.
  rewrite Forall_forall in Hw.
  split.
  - intros src dst Hin. apply in_app_or in Hin as [Hin|Hin].
    + apply list_elem_of_In, Hw in Hin as (path & a & [=]).
    + unfold cleanup in Hin.
      destruct (_ && _); [destruct (remove_ok _ _)|]; simpl in Hin;
        intuition discriminate.
  - intros p. rewrite in_app_iff. unfold cleanup. split.
    + intros [Hin|Hin].
      * apply list_elem_of_In, Hw in Hin as (path & a & [=]).
      * destruct (negb (String.eqb (str_path E audio_path) audio_path)) eqn:Hne;
          simpl in Hin; [|destruct Hin].
        destruct (path_exists E (str_path E audio_path)) eqn:Hex;
          simpl in Hin; [|destruct Hin].
        destruct (remove_ok E (str_path E audio_path)) eqn:Hrm;
          simpl in Hin; [|destruct Hin].
        destruct Hin as [[= <-]|[]].
        apply negb_true_iff, String.eqb_neq in Hne. auto.
    + intros (-> & Hne & Hex & Hrm). right.
      apply String.eqb_neq in Hne. rewrite Hne, Hex, Hrm. now left.
Qed.

Lemma input_removed_unless_path_is_normal_witness :
  (forall src dst,
     ~ In (Convert src dst)
          (fst (transcribe_with_speakers sample_engines int_repr ["out"]
                  "./meeting.wav" None))) /\
  (forall p,
     In (Remove p)
        (fst (transcribe_with_speakers sample_engines int_repr ["out"]
                "./meeting.wav" None)) <->
     p = "meeting.wav" /\ "meeting.wav" <> "./meeting.wav" /\
     path_exists sample_engines p = true /\ remove_ok sample_engines p = true).
Proof.
  refine (input_removed_unless_path_is_normal sample_engines int_repr ["out"]
            "./meeting.wav" None _).
  left. reflexivity.
Defined.


End Transcribe.

Section Folder.

Lemma endswith_unfold (s x : string) :
  endswith s x =
  if String.eqb s x then true
  else match s with
       | EmptyString => false
       | String _ s' => endswith s' x
       end.
Proof. destruct s; reflexivity. Qed.

Lemma endswith_refl (s : string) : endswith s s = true.
Proof. rewrite endswith_unfold. now rewrite String.eqb_refl. Qed.

Lemma endswith_cons (c : ascii) (s x : string) :
  endswith s x = true -> endswith (String c s) x = true.
Proof.
  intros H. rewrite endswith_unfold.
  destruct (String.eqb (String c s) x); auto.
Qed.

Lemma endswith_inv (s x : string) :
  endswith s x = true ->
  s = x \/ exists c s', s = String c s' /\ endswith s' x = true.
Proof.
  rewrite endswith_unfold.
  destruct (String.eqb s x) eqn:E.
  - apply String.eqb_eq in E. auto.
  - destruct s as [|c s']; [discriminate|]. intros H. right. eauto.
Qed.

(** [s.endswith(x)] holds exactly when [s] is some text followed by [x]. *)
Lemma endswith_spec (s x : string) :
  endswith s x = true <-> exists prefix, s = prefix +:+ x.
Proof.
  split.
  - induction s as [|c s' IH]; intros H; apply endswith_inv in H.
    + destruct H as [<-|(c & s' & [=] & _)]. now exists EmptyString.
    + destruct H as [<-|(c' & s'' & [= <- <-] & H)].
      * now exists EmptyString.
      * destruct (IH H) as [p ->]. now exists (String c p).
  - intros [p ->]. induction p as [|c p IH].
    + rewrite append_nil. apply endswith_refl.
    + rewrite append_cons. now apply endswith_cons.
Qed.

Lemma endswith_any_spec (s : string) (suffixes : list string) :
  endswith_any s suffixes = true <->
  exists ext prefix, In ext suffixes /\ s = prefix +:+ ext.
Proof.
  unfold endswith_any. rewrite existsb_exists. split.
  - intros (ext & Hin & H). apply endswith_spec in H as [p ->]. eauto.
  - intros (ext & p & Hin & ->). exists ext. split; [assumption|].
    apply endswith_spec. eauto.
Qed.

(** Two endings of one text: one of them ends the other. *)
Lemma endswith_comparable (s x y : string) :
  endswith s x = true -> endswith s y = true ->
  endswith x y = true \/ endswith y x = true.
Proof.
  induction s as [|c s' IH]; intros Hx Hy;
    apply endswith_inv in Hx; apply endswith_inv in Hy.
  - destruct Hx as [<-|(? & ? & [=] & _)]. destruct Hy as [<-|(? & ? & [=] & _)].
    now left.
  - destruct Hx as [<-|(cx & sx & [= <- <-] & Hx)].
    + left. destruct Hy as [<-|(cy & sy & [= <- <-] & Hy)].
      * apply endswith_refl.
      * now apply endswith_cons.
    + destruct Hy as [<-|(cy & sy & [= <- <-] & Hy)].
      * right. now apply endswith_cons.
      * now apply IH.
Qed.

(** X24.  [process_folder] tries exactly the listed names that end, once
    in lower case, in one of the extensions, in the order of the listing,
    each under [os.path.join(folder_path, name)] and without an output
    name.  A call that raises does not stop the loop: every such name is
    tried, the events of the calls follow one another, and each outcome
    is that of the file's own call. *)
Theorem process_folder_tries_supported_files
    (engines_at : string -> Engines) (float_repr : Q -> string)
    (base_dir : list string) (folder_path : string)
    (listing supported_formats : list string) :
  let supported := fun filename =>
    endswith_any (str_lower filename) supported_formats in
  let call := fun filename =>
    transcribe_with_speakers (engines_at filename) float_repr base_dir
      (os_path_join folder_path filename) None in
  process_folder engines_at float_repr base_dir folder_path listing
                 supported_formats
  = (concat (map (fun filename => fst (call filename))
                 (List.filter supported listing)),
     map (fun filename => (os_path_join folder_path filename, snd (call filename)))
         (List.filter supported listing)) /\
  (forall filename,
     supported filename = true <->
     exists ext prefix,
       In ext supported_formats /\ str_lower filename = prefix +:+ ext).
Proof.
  intros supported call. split.
  - induction listing as [|filename rest IH]; [reflexivity|].
    simpl. rewrite IH. fold (supported filename).
    destruct (supported filename); [|reflexivity].
    simpl. fold (call filename). now destruct (call filename).
  - intros filename. apply endswith_any_spec.
Qed.

(** X25.  The two lists of extensions disagree.  A name ending in [.ogg]
    or [.aac], in any case of the letters, is supported according to
    [SUPPORTED_FORMATS] of [config.py], but the default of
    [process_folder] passes it over: a folder holding only such files
    leads to no call at all. *)
Theorem default_formats_skip_ogg_and_aac (filename : string) :
  endswith_any (str_lower filename) [".ogg"; ".aac"] = true ->
  endswith_any (str_lower filename) SUPPORTED_FORMATS = true /\
  endswith_any (str_lower filename) default_formats = false /\
  forall engines_at float_repr base_dir folder_path,
    process_folder engines_at float_repr base_dir folder_path [filename]
                   default_formats = ([], []).
Proof.
  intros H.
  assert (Hdef : endswith_any (str_lower filename) default_formats = false).
  { apply not_true_is_false. intros Hd.
    unfold endswith_any in H, Hd.
    apply existsb_exists in H as (x & Hx & Hsx).
    apply existsb_exists in Hd as (y & Hy & Hsy).
    destruct (endswith_comparable _ _ _ Hsx Hsy) as [Hc|Hc];
      simpl in Hx, Hy;
      repeat match goal with
             | H : _ \/ _ |- _ => destruct H as [<-|H]
             | H : False |- _ => destruct H
             end;
      vm_compute in Hc; discriminate. }
  split; [|split].
  - unfold endswith_any in *. apply existsb_exists in H as (x & Hx & Hsx).
    apply existsb_exists. exists x. split; [|assumption].
    simpl in Hx |- *. intuition.
  - exact Hdef.
  - intros. unfold process_folder. now rewrite Hdef.
Qed.

Lemma default_formats_skip_ogg_and_aac_witness :
  endswith_any (str_lower "Standup.OGG") SUPPORTED_FORMATS = true /\
  endswith_any (str_lower "Standup.OGG") default_formats = false /\
  forall engines_at float_repr base_dir folder_path,
    process_folder engines_at float_repr base_dir folder_path ["Standup.OGG"]
                   default_formats = ([], []).
Proof.
  apply (default_formats_skip_ogg_and_aac "Standup.OGG"). reflexivity.
Defined.

End Folder.

Section CommandLine.

(** The order of strings is a strict total order. *)
Lemma ascii_compare_eq (a b : ascii) : Ascii.compare a b = Eq -> a = b.
Proof.
  unfold Ascii.compare. intros H. apply N.compare_eq_iff in H.
  rewrite <- (ascii_N_embedding a), <- (ascii_N_embedding b). now rewrite H.
Qed.

Lemma string_lt_trans (a b c : string) :
  String.compare a b = Lt -> String.compare b c = Lt -> String.compare a c = Lt.
Proof.
  revert b c. induction a as [|x a IH]; intros [|y b] [|z c]; simpl;
    try congruence.
  destruct (Ascii.compare x y) eqn:Exy; try discriminate;
    destruct (Ascii.compare y z) eqn:Eyz; try discriminate; intros Hab Hbc.
  - apply ascii_compare_eq in Exy, Eyz. subst.
    assert (Ascii.compare z z = Eq) as -> by apply N.compare_refl.
    eauto.
  - apply ascii_compare_eq in Exy. subst. now rewrite Eyz.
  - apply ascii_compare_eq in Eyz. subst. now rewrite Exy.
  - unfold Ascii.compare in *. rewrite N.compare_lt_iff in *.
    assert (N_of_ascii x < N_of_ascii z)%N as H by lia.
    apply N.compare_lt_iff in H. now rewrite H.
Qed.

Lemma string_lt_total (a b : string) :
  String.ltb b a = false -> a <> b -> String.compare a b = Lt.
Proof.
  unfold String.ltb. intros H Hne. rewrite String.compare_antisym in H.
  destruct (String.compare a b) eqn:E; simpl in H; try congruence.
  apply String.compare_eq_iff in E. contradiction.
Qed.

Lemma In_insert_sorted (x y : string) (l : list string) :
  In y (insert_sorted x l) <-> y = x \/ In y l.
Proof.
  induction l as [|z l IH]; simpl.
  - intuition.
  - destruct (String.ltb z x); simpl; rewrite ?IH; intuition.
Qed.

Lemma In_sorted (y : string) (l : list string) : In y (sorted l) <-> In y l.
Proof.
  induction l as [|x l IH]; simpl; [reflexivity|].
  rewrite In_insert_sorted, IH. intuition.
Qed.

Lemma length_insert_sorted (x : string) (l : list string) :
  length (insert_sorted x l) = S (length l).
Proof.
  induction l as [|z l IH]; simpl; [reflexivity|].
  destruct (String.ltb z x); simpl; now rewrite ?IH.
Qed.

Lemma length_sorted (l : list string) : length (sorted l) = length l.
Proof.
  induction l as [|x l IH]; simpl; [reflexivity|].
  now rewrite length_insert_sorted, IH.
Qed.

Lemma insert_sorted_increasing (x : string) (l : list string) :
  StronglySorted (fun a b => String.compare a b = Lt) l ->
  ~ In x l ->
  StronglySorted (fun a b => String.compare a b = Lt) (insert_sorted x l).
Proof.
  induction 1 as [|z l Hs IH Hz]; intros Hnin; simpl.
  - repeat constructor.
  - destruct (String.ltb z x) eqn:Ezx.
    + constructor.
      * apply IH. intros Hin. apply Hnin. now right.
      * apply Forall_forall. intros y Hy. apply list_elem_of_In in Hy.
        apply In_insert_sorted in Hy as [->|Hy].
        -- unfold String.ltb in Ezx. now destruct (String.compare z x).
        -- rewrite Forall_forall in Hz. apply Hz. now apply list_elem_of_In.
    + assert (Hxz : String.compare x z = Lt).
      { apply string_lt_total; [assumption|]. intros ->. apply Hnin. now left. }
      constructor; [now constructor|].
      constructor; [assumption|].
      eapply Forall_impl; [exact Hz|]. intros y Hy. simpl in Hy.
      now apply string_lt_trans with z.
Qed.

Lemma sorted_increasing (l : list string) :
  NoDup l -> StronglySorted (fun a b => String.compare a b = Lt) (sorted l).
Proof.
  induction 1 as [|x l Hx Hnd IH]; simpl; [constructor|].
  apply insert_sorted_increasing; [assumption|].
  rewrite In_sorted. intros Hin. apply Hx. now apply list_elem_of_In.
Qed.

(** [max] of a non-empty sequence is one of its items and no item is
    greater. *)
Lemma fold_max_spec (xs : list Q) : forall m0 : Q,
  let m := fold_left Py.max xs m0 in
  (m = m0 \/ In m xs) /\ (m0 <= m)%Q /\ Forall (fun x => (x <= m)%Q) xs.
Proof.
  induction xs as [|x xs IH]; intros m0; simpl.
  - split; [now left|]. split; [apply Qle_refl | constructor].
  - destruct (IH (Py.max m0 x)) as (Hin & Hle & Hall).
    assert (Hm : (m0 <= Py.max m0 x)%Q /\ (x <= Py.max m0 x)%Q /\
                 (Py.max m0 x = m0 \/ Py.max m0 x = x)).
    { unfold Py.max. destruct (Py.ltb m0 x) eqn:E.
      - apply ltb_lt in E. split; [now apply Qlt_le_weak|].
        split; [apply Qle_refl | now right].
      - apply ltb_ge in E. split; [apply Qle_refl|]. split; [assumption | now left]. }
    destruct Hm as (H0 & Hx & Hwhich).
    split; [|split].
    + destruct Hin as [Hin|Hin]; [|now right; right].
      rewrite Hin. destruct Hwhich as [->| ->]; [now left | now right; left].
    + now apply Qle_trans with (Py.max m0 x).
    + constructor; [|assumption]. now apply Qle_trans with (Py.max m0 x).
Qed.

Lemma py_max_of_spec (xs : list Q) :
  xs <> [] ->
  exists m, py_max_of xs = Py.Ok m /\ In m xs /\ Forall (fun x => (x <= m)%Q) xs.
Proof.
  destruct xs as [|x xs]; [congruence|]. intros _.
  destruct (fold_max_spec xs x) as (Hin & Hle & Hall).
  eexists. split; [reflexivity|]. split.
  - destruct Hin as [->|Hin]; [now left | now right].
  - now constructor.
Qed.

(** A call that returns, returns at least one segment. *)
Lemma transcribe_returned_nonempty E float_repr base_dir audio_path output_name segs :
  snd (transcribe_with_speakers E float_repr base_dir audio_path output_name)
  = Returned segs -> segs <> [].
Proof.
  rewrite transcribe_with_speakers_unfold. simpl. unfold transcribe_body.
  destruct (diarize E _); [|discriminate].
  destruct (whisper E _); [|discriminate].
  destruct (align_transcription_with_speakers _ _) as [aligned|]; [|discriminate].
  pose proof (save_all_outputs_spec float_repr base_dir aligned
                (default (stem E audio_path) output_name)) as Hsave.
  destruct (save_all_outputs _ _ _ _) as [written r].
  destruct aligned; simpl in Hsave; destruct Hsave as [_ ->]; simpl.
  - discriminate.
  - intros [= <-]. discriminate.
Qed.


(** X27.  The summary of a successful run.  When the call returns, the
    command prints the start line, the number of segments, where the
    files are, and a summary that never fails: the duration is the end of
    one of the segments and no segment ends later; the speakers are
    exactly the labels of the segments, each once, in increasing order of
    their code points, and the count printed is their number. *)
Theorem quick_main_summary
    (script audio_path : string) (file_exists : string -> bool)
    (E : Engines) (float_repr : Q -> string) (base_dir : list string)
    (result : list AlignedUtterance) :
  file_exists audio_path = true ->
  snd (transcribe_with_speakers E float_repr base_dir audio_path None)
  = Returned result ->
  exists total_duration names,
    quick_main [script; audio_path] file_exists (Returned E) float_repr base_dir
    = ([Starting audio_path; Transcribed (length result); SavedIn;
        SummaryHeading; Duration total_duration;
        Speakers (length names) names],
       fst (transcribe_with_speakers E float_repr base_dir audio_path None),
       0%Z) /\
    In total_duration (map au_end result) /\
    Forall (fun u => (au_end u <= total_duration)%Q) result /\
    StronglySorted (fun a b => String.compare a b = Lt) names /\
    (forall name, In name names <-> exists u, In u result /\ au_speaker u = name).
Proof.
  intros Hex Hret. unfold quick_main. rewrite Hex. simpl.
  pose proof (transcribe_returned_nonempty _ _ _ _ _ _ Hret) as Hne.
  destruct (transcribe_with_speakers E float_repr base_dir audio_path None)
    as [events r]. simpl in Hret. subst r.
  destruct (py_max_of_spec (map au_end result)) as (m & -> & Hin & Hall).
  { intros Hnil. now apply map_eq_nil in Hnil. }
  exists m, (sorted (py_set (map au_speaker result))).
  rewrite length_sorted. split; [reflexivity|].
  split; [assumption|]. split; [|split].
  - rewrite Forall_map in Hall. exact Hall.
  - apply sorted_increasing. apply NoDup_remove_dups.
  - intros name. rewrite In_sorted. unfold py_set.
    rewrite <- list_elem_of_In, elem_of_remove_dups, list_elem_of_In, in_map_iff.
    split; intros (u & H1 & H2); exists u; auto.
Qed.

Lemma quick_main_summary_witness :
  exists total_duration names,
    quick_main ["quick_transcribe.py"; "meeting.wav"] (fun _ => true)
               (Returned sample_engines) int_repr ["output"]
    = ([Starting "meeting.wav"; Transcribed (length hello_world_aligned); SavedIn;
        SummaryHeading; Duration total_duration;
        Speakers (length names) names],
       fst (transcribe_with_speakers sample_engines int_repr ["output"]
              "meeting.wav" None),
       0%Z) /\
    In total_duration (map au_end hello_world_aligned) /\
    Forall (fun u => (au_end u <= total_duration)%Q) hello_world_aligned /\
    StronglySorted (fun a b => String.compare a b = Lt) names /\
    (forall name, In name names <-> exists u, In u hello_world_aligned /\ au_speaker u = name).
Proof.
  apply (quick_main_summary "quick_transcribe.py" "meeting.wav" (fun _ => true)
           sample_engines int_repr ["output"] hello_world_aligned);
    vm_compute; reflexivity.
Defined.

End CommandLine.

Section EndToEnd.

Lemma writes_app (xs ys : list event) : writes (xs ++ ys) = writes xs ++ writes ys.
Proof. unfold writes. apply omap_app. Qed.

Lemma writes_map_Write (written : list (list string * artifact)) :
  writes (map (fun pa => Write (fst pa) (snd pa)) written) = written.
Proof.
  induction written as [|[path a] written IH]; [reflexivity|].
  simpl. unfold writes in *. simpl. now rewrite IH.
Qed.

Lemma writes_convert (E : Engines) (audio_path : string) :
  writes (fst (convert_audio_if_needed E audio_path)) = [].
Proof.
  unfold convert_audio_if_needed.
  destruct (String.eqb _ _); [reflexivity|].
  now destruct (convert_ok _ _ _).
Qed.

Lemma writes_cleanup (E : Engines) (audio_path processed : string) :
  writes (cleanup E audio_path processed) = [].
Proof.
  unfold cleanup. destruct (_ && _); [|reflexivity].
  now destruct (remove_ok _ _).
Qed.

(** X28.  The files of a successful call all describe what the call
    returned.  When the call returns a list, it has written exactly three
    files, in this order and under the output name: the structured
    record, which reads back as the returned list, key by key and in
    order (each number being printed as a token that reads back as
    itself); the transcript, whose text lines are the texts of the list;
    and the table, whose rows are the utterances of the list. *)
Theorem returned_segments_are_in_every_file
    (E : Engines) (float_repr : Q -> string) (float_parse : string -> option Q)
    (base_dir : list string) (audio_path : string) (output_name : option string)
    (segs : list AlignedUtterance) :
  let call := transcribe_with_speakers E float_repr base_dir audio_path output_name in
  let name := default (stem E audio_path) output_name in
  snd call = Returned segs ->
  Forall (fun u =>
            Forall (fun kv => Json.reads_back float_repr float_parse (snd kv))
                   (items u)) segs ->
  exists text ws table,
    writes (fst call)
    = [ (base_dir ++ ["detailed"; name +:+ "_detailed.json"], JsonFile text);
        (base_dir ++ ["transcripts"; name +:+ "_transcript.txt"], TranscriptFile ws);
        (base_dir ++ ["analysis"; name +:+ "_analysis.csv"], CsvFile table) ] /\
    Json.loads float_parse text = Some (map items segs) /\
    lines ws = map au_text segs /\
    csv_rows table = map csv_row segs.
Proof.
  intros call name Hret Hnum. subst call.
  pose proof (transcribe_returned_nonempty _ _ _ _ _ _ Hret) as Hne.
  revert Hret. rewrite transcribe_with_speakers_unfold. simpl.
  rewrite !writes_app, writes_convert, writes_cleanup, app_nil_r. simpl.
  unfold transcribe_body.
  destruct (diarize E _); [|discriminate].
  destruct (whisper E _); [|discriminate].
  destruct (align_transcription_with_speakers _ _) as [aligned|]; [|discriminate].
  fold name.
  destruct (save_all_outputs float_repr base_dir aligned name)
    as [written r] eqn:Esave.
  cbn [fst snd]. rewrite writes_map_Write.
  destruct r as [[]|err]; [|discriminate]. intros [= ->].
  revert Esave. unfold save_all_outputs.
  rewrite (save_csv_analysis_rows segs Hne). intros [= <-].
  unfold output_dir. rewrite <- !app_assoc. simpl.
  eexists _, _, _. split; [reflexivity|]. split; [|split].
  - unfold save_detailed_json. apply loads_dump.
    apply Forall_fmap. eapply Forall_impl; [exact Hnum|].
    intros u Hu. split; [apply items_nonempty | exact Hu].
  - unfold save_readable_transcript. apply lines_loop.
  - reflexivity.
Qed.

Lemma returned_segments_are_in_every_file_witness :
  exists text ws table,
    writes (fst (transcribe_with_speakers whole_engines int_repr ["output"]
                   "talk.mp3" (Some "standup")))
    = [ (["output"] ++ ["detailed"; "standup" +:+ "_detailed.json"], JsonFile text);
        (["output"] ++ ["transcripts"; "standup" +:+ "_transcript.txt"],
         TranscriptFile ws);
        (["output"] ++ ["analysis"; "standup" +:+ "_analysis.csv"], CsvFile table) ] /\
    Json.loads int_parse text = Some (map items (take 1 hello_world_aligned)) /\
    lines ws = map au_text (take 1 hello_world_aligned) /\
    csv_rows table = map csv_row (take 1 hello_world_aligned).
Proof.
  refine (returned_segments_are_in_every_file whole_engines int_repr int_parse
            ["output"] "talk.mp3" (Some "standup") (take 1 hello_world_aligned)
            _ _).
  - vm_compute. reflexivity.
  - repeat constructor; vm_compute; repeat split; congruence.
Defined.

End EndToEnd.
